(** * Bilingual sentence-pair extraction: a shallow embedding

    The development follows the Python sources

      - [corpus_raw/manual-alignment/extract_corpus.py]  (UTF-8 extractor),
      - [main.py]                                        (Shift-JIS extractor),
      - [corpus_raw/manual-alignment/reverse.py]         (TSV to JSON lines).

    A Python [str] is a sequence of Unicode code points, so a string is a
    [list Z] here.  The pieces of the Python runtime the scripts rely on
    ([str.strip], [str.split], [str.replace], [re.sub], [re.split], ...)
    are modelled in [Module Py] and [Module Re]; the three scripts follow,
    one module each, with the names of the source. *)

From Stdlib Require Import ZArith List Bool Lia String Ascii Arith.
Import ListNotations.

Set Implicit Arguments.

(* ================================================================== *)
(** ** The Python runtime: strings, exceptions *)
(* ================================================================== *)

Module Py.

Definition str := list Z.

(** UTF-8 decoding of a Rocq string literal, so that the literals of the
    source can be written as they are: [u "注"] is [[0x6CE8]]. *)
Fixpoint utf8_decode (need : nat) (acc : Z) (s : string) : str :=
  match s with
  | EmptyString => []
  | String a s' =>
      let b := Z.of_nat (nat_of_ascii a) in
      match need with
      | O =>
          if (b <? 0x80)%Z then b :: utf8_decode 0 0%Z s'
          else if (b <? 0xE0)%Z then utf8_decode 1 (b - 0xC0)%Z s'
          else if (b <? 0xF0)%Z then utf8_decode 2 (b - 0xE0)%Z s'
          else utf8_decode 3 (b - 0xF0)%Z s'
      | S k =>
          let acc' := (acc * 64 + (b - 0x80))%Z in
          match k with
          | O => acc' :: utf8_decode 0 0%Z s'
          | S _ => utf8_decode k acc' s'
          end
      end
  end.

Definition u (s : string) : str := utf8_decode 0 0%Z s.

(** Code points of the control characters the scripts name. *)
Definition TAB : Z := 9.
Definition LF : Z := 10.
Definition CR : Z := 13.
Definition SPACE : Z := 32.

Definition in_range (lo hi c : Z) : bool := ((lo <=? c) && (c <=? hi))%Z.

(** [str.isspace] on one character: the set used both by [str.strip()] and
    by [\s] in a [str] pattern. *)
Definition is_space (c : Z) : bool :=
  in_range 0x09 0x0D c || in_range 0x1C 0x20 c
  || (c =? 0x85)%Z || (c =? 0xA0)%Z || (c =? 0x1680)%Z
  || in_range 0x2000 0x200A c
  || (c =? 0x2028)%Z || (c =? 0x2029)%Z || (c =? 0x202F)%Z
  || (c =? 0x205F)%Z || (c =? 0x3000)%Z.

(** Unicode decimal digits (general category Nd, Unicode 14.0): what [\d]
    matches in a [str] pattern.  Each entry is the first code point of a
    run of [len] consecutive digits. *)
Definition decimal_runs : list (Z * Z) :=
  [ (0x30, 10); (0x660, 10); (0x6F0, 10); (0x7C0, 10); (0x966, 10);
    (0x9E6, 10); (0xA66, 10); (0xAE6, 10); (0xB66, 10); (0xBE6, 10);
    (0xC66, 10); (0xCE6, 10); (0xD66, 10); (0xDE6, 10); (0xE50, 10);
    (0xED0, 10); (0xF20, 10); (0x1040, 10); (0x1090, 10); (0x17E0, 10);
    (0x1810, 10); (0x1946, 10); (0x19D0, 10); (0x1A80, 10); (0x1A90, 10);
    (0x1B50, 10); (0x1BB0, 10); (0x1C40, 10); (0x1C50, 10); (0xA620, 10);
    (0xA8D0, 10); (0xA900, 10); (0xA9D0, 10); (0xA9F0, 10); (0xAA50, 10);
    (0xABF0, 10); (0xFF10, 10); (0x104A0, 10); (0x10D30, 10); (0x11066, 10);
    (0x110F0, 10); (0x11136, 10); (0x111D0, 10); (0x112F0, 10); (0x11450, 10);
    (0x114D0, 10); (0x11650, 10); (0x116C0, 10); (0x11730, 10); (0x118E0, 10);
    (0x11950, 10); (0x11C50, 10); (0x11D50, 10); (0x11DA0, 10); (0x16A60, 10);
    (0x16AC0, 10); (0x16B50, 10); (0x1D7CE, 50); (0x1E140, 10); (0x1E2F0, 10);
    (0x1E950, 10); (0x1FBF0, 10) ]%Z.

Definition is_decimal (c : Z) : bool :=
  existsb (fun r => in_range (fst r) (fst r + snd r - 1) c) decimal_runs.

(** [len(s)] *)
Definition len (s : str) : nat := List.length s.

(** [s.lstrip(chars)], [s.rstrip(chars)] and [s.strip(chars)], the set of
    characters given as a predicate. *)
Fixpoint lstrip_by (p : Z -> bool) (s : str) : str :=
  match s with
  | [] => []
  | c :: s' => if p c then lstrip_by p s' else s
  end.

Definition rstrip_by (p : Z -> bool) (s : str) : str :=
  rev (lstrip_by p (rev s)).

Definition strip_by (p : Z -> bool) (s : str) : str :=
  rstrip_by p (lstrip_by p s).

(** [s.strip()] *)
Definition strip (s : str) : str := strip_by is_space s.

(** [s.startswith(prefix)] *)
Fixpoint startswith (s prefix : str) {struct prefix} : bool :=
  match prefix with
  | [] => true
  | p :: prefix' =>
      match s with
      | [] => false
      | c :: s' => (c =? p)%Z && startswith s' prefix'
      end
  end.

(** [sub in s] *)
Fixpoint contains (sub s : str) : bool :=
  startswith s sub
  || match s with
     | [] => false
     | _ :: s' => contains sub s'
     end.

(** [s.split(sep)] for a one-character separator: never the empty list. *)
Fixpoint split (sep : Z) (s : str) : list str :=
  match s with
  | [] => [[]]
  | c :: s' =>
      if (c =? sep)%Z then [] :: split sep s'
      else match split sep s' with
           | piece :: pieces => (c :: piece) :: pieces
           | [] => [[c]]
           end
  end.

(** [s.split(sep, maxsplit)] for a one-character separator. *)
Fixpoint split_max (sep : Z) (maxsplit : nat) (s : str) : list str :=
  match s with
  | [] => [[]]
  | c :: s' =>
      match maxsplit with
      | O => [s]
      | S k =>
          if (c =? sep)%Z then [] :: split_max sep k s'
          else match split_max sep maxsplit s' with
               | piece :: pieces => (c :: piece) :: pieces
               | [] => [[c]]
               end
      end
  end.

(** [sep.join(l)] *)
Fixpoint join (sep : str) (l : list str) : str :=
  match l with
  | [] => []
  | [x] => x
  | x :: l' => x ++ sep ++ join sep l'
  end.

(** [s.replace(old, new)] for a non-empty [old]: the occurrences are found
    from the left and do not overlap.  [skip] counts the characters of the
    occurrence under the cursor that are still to be passed over. *)
Fixpoint replace_from (old new : str) (skip : nat) (s : str) : str :=
  match s with
  | [] => []
  | c :: s' =>
      match skip with
      | S k => replace_from old new k s'
      | O =>
          if startswith s old then
            match len old with
            | S k => new ++ replace_from old new k s'
            | O => c :: replace_from old new 0 s'
            end
          else c :: replace_from old new 0 s'
      end
  end.

Definition replace (old new s : str) : str := replace_from old new 0 s.

(** Exceptions: a computation returns a value or raises. *)
Inductive exn := IndexError.

Inductive result (A : Type) :=
| Ok (a : A)
| Raise (e : exn).
Arguments Ok {A} a.
Arguments Raise {A} e.

Definition bind {A B} (m : result A) (f : A -> result B) : result B :=
  match m with
  | Ok a => f a
  | Raise e => Raise e
  end.

(** [l[i]] for [0 <= i] *)
Definition index {A} (l : list A) (i : nat) : result A :=
  match nth_error l i with
  | Some x => Ok x
  | None => Raise IndexError
  end.

(** [for i in range: acc = body(i, acc)], the body may raise. *)
Fixpoint for_each {I A} (body : I -> A -> result A) (range : list I) (acc : A)
  : result A :=
  match range with
  | [] => Ok acc
  | i :: range' => bind (body i acc) (for_each body range')
  end.

End Py.

Notation "x <- m ;; k" := (Py.bind m (fun x => k))
  (at level 61, m at next level, right associativity).

(* ================================================================== *)
(** ** The Python runtime: the [re] module *)
(* ================================================================== *)

Module Re.
Import Py.

(** The fragment of the pattern language the scripts use.  Repetition is
    only ever applied to a character class. *)
Inductive regex :=
| Eps
| Cls (p : Z -> bool)          (* one character of a class, or a literal *)
| Cat (a b : regex)            (* a b *)
| Opt (a : regex)              (* a?   greedy *)
| Star (p : Z -> bool)         (* [p]* greedy *)
| Eos.                         (* $    without MULTILINE *)

(** Backtracking matcher in continuation-passing style: [run r k s] is the
    first success, in the order a backtracking engine tries the
    alternatives, of matching [r] on a prefix of [s] and then [k] on what
    is left. *)
Fixpoint star (p : Z -> bool) (k : str -> option str) (s : str) : option str :=
  match s with
  | [] => k s
  | c :: s' =>
      if p c then
        match star p k s' with
        | Some rest => Some rest
        | None => k s
        end
      else k s
  end.

Fixpoint run (r : regex) (k : str -> option str) (s : str) : option str :=
  match r with
  | Eps => k s
  | Cls p =>
      match s with
      | [] => None
      | c :: s' => if p c then k s' else None
      end
  | Cat a b => run a (run b k) s
  | Opt a =>
      match run a k s with
      | Some rest => Some rest
      | None => k s
      end
  | Star p => star p k s
  | Eos =>
      match s with
      | [] => k s
      | [c] => if (c =? LF)%Z then k s else None
      | _ => None
      end
  end.

(** What is left of [s] after a match of [r] at its start. *)
Definition match_at (r : regex) (s : str) : option str := run r Some s.

Definition match_len (r : regex) (s : str) : option nat :=
  match match_at r s with
  | Some rest => Some (len s - len rest)
  | None => None
  end.

(** [bool(re.match(r, s))]: the pattern is tried at the start of [s] only,
    which is also all that a leading [^] asks for. *)
Definition re_match (r : regex) (s : str) : bool :=
  match match_at r s with
  | Some _ => true
  | None => false
  end.

(** [bool(re.search(r, s))] *)
Fixpoint re_search (r : regex) (s : str) : bool :=
  re_match r s
  || match s with
     | [] => false
     | _ :: s' => re_search r s'
     end.

(** [re.sub(r, repl, s)] for a pattern that matches no empty string and a
    replacement without group references.  [skip] counts the characters of
    the match under the cursor that are still to be passed over. *)
Fixpoint sub_from (r : regex) (repl : str) (skip : nat) (s : str) : str :=
  match s with
  | [] => []
  | c :: s' =>
      match skip with
      | S k => sub_from r repl k s'
      | O =>
          match match_len r s with
          | Some (S k) => repl ++ sub_from r repl k s'
          | _ => c :: sub_from r repl 0 s'
          end
      end
  end.

Definition re_sub (r : regex) (repl s : str) : str := sub_from r repl 0 s.

(** [re.split(r, s)] for a pattern without groups that matches no empty
    string.  The head of the result is the rest of the piece under the
    cursor. *)
Fixpoint split_from (r : regex) (skip : nat) (s : str) : list str :=
  match s with
  | [] => [[]]
  | c :: s' =>
      match skip with
      | S k => split_from r k s'
      | O =>
          match match_len r s with
          | Some (S k) => [] :: split_from r k s'
          | _ =>
              match split_from r 0 s' with
              | piece :: pieces => (c :: piece) :: pieces
              | [] => [[c]]
              end
          end
      end
  end.

Definition re_split (r : regex) (s : str) : list str := split_from r 0 s.

(** Pattern building blocks. *)
Definition chr (c : Z) : regex := Cls (Z.eqb c).
Definition one_of (chars : str) (c : Z) : bool := existsb (Z.eqb c) chars.
Definition any (c : Z) : bool := true.                 (* . with DOTALL *)
Definition cat (l : list regex) : regex := fold_right Cat Eps l.
Definition lit (s : str) : regex := cat (map chr s).
Definition plus (p : Z -> bool) : regex := Cat (Cls p) (Star p).
Definition rep (n : nat) (p : Z -> bool) : regex := cat (repeat (Cls p) n).

(** A lower-case ASCII letter [c] under [re.IGNORECASE] in a [str]
    pattern: both cases of the letter, and for [s] also U+017F (LATIN
    SMALL LETTER LONG S), which the engine treats as a case variant. *)
Definition icase (c x : Z) : bool :=
  (x =? c)%Z || (x =? c - 32)%Z || ((c =? 0x73)%Z && (x =? 0x17F)%Z).

End Re.

(* ================================================================== *)
(** ** corpus_raw/manual-alignment/extract_corpus.py *)
(* ================================================================== *)

Module ExtractCorpus.
Import Py Re.

Definition pair := (str * str)%type.

(** [[぀-ゟ゠-ヿ一-鿿]] *)
Definition japanese_char (c : Z) : bool :=
  in_range 0x3040 0x309F c || in_range 0x30A0 0x30FF c
  || in_range 0x4E00 0x9FFF c.

Definition is_japanese (text : str) : bool :=
  re_search (Cls japanese_char) text.

(** [&#\d{4}] *)
Definition entity_pattern : regex := Cat (lit (u "&#")) (rep 4 is_decimal).

Definition clean_text (text : str) : str :=
  let text := re_sub entity_pattern [] text in
  let text := strip text in
  text.

(** The patterns of [should_skip_line], in the order of the source. *)
Definition rule_pattern : regex :=                   (* ^[-=_*]{3,}$ *)
  cat [rep 3 (one_of (u "-=_*")); Star (one_of (u "-=_*")); Eos].
Definition bang_pattern : regex :=                   (* ^[!！]+$ *)
  cat [plus (one_of (u "!！")); Eos].
Definition note_label_pattern : regex :=             (* ^注[:：]?\s*$ *)
  cat [lit (u "注"); Opt (Cls (one_of (u ":："))); Star is_space; Eos].
Definition note_number_pattern : regex :=            (* ^注\s*\d+[:：] *)
  cat [lit (u "注"); Star is_space; plus is_decimal; Cls (one_of (u ":："))].
Definition note_letter_pattern : regex :=            (* ^注[A-Z][:：] *)
  cat [lit (u "注"); Cls (in_range 0x41 0x5A); Cls (one_of (u ":："))].
Definition digits_pattern : regex :=                 (* ^\d+\.?\s*$ *)
  cat [plus is_decimal; Opt (chr 0x2E); Star is_space; Eos].

Definition should_skip_line (line : str) : bool :=
  let line := strip line in
  if (len line =? 0)%nat then true
  else if re_match rule_pattern line then true
  else if startswith line (u "http://") || startswith line (u "https://")
          || startswith line (u "<http") then true
  else if re_match bang_pattern line then true
  else if startswith line (u "（訳注：") || startswith line (u "(訳注:")
          || startswith line (u "訳注：") then true
  else if re_match note_label_pattern line then true
  else if re_match note_number_pattern line then true
  else if re_match note_letter_pattern line then true
  else if re_match digits_pattern line then true
  else if contains (u "Version") line
          && (contains (u "Page") line || contains (u "Progress") line) then true
  else if (len line <=? 2)%nat then true
  else false.

(** The loop that separates the lines by script: one iteration on the two
    lists built so far. *)
Definition separate (acc : list str * list str) (line : str)
  : list str * list str :=
  let '(ja_lines, en_lines) := acc in
  let cleaned := clean_text line in
  if (len cleaned =? 0)%nat then acc
  else if is_japanese cleaned then (ja_lines ++ [cleaned], en_lines)
  else (ja_lines, en_lines ++ [cleaned]).

(** [len(ja) >= 3 and len(en) >= 3] *)
Definition long_enough (ja en : str) : bool :=
  (3 <=? len ja)%nat && (3 <=? len en)%nat.

Definition semicolon_pattern : regex := Cat (chr 0x3B) (Star is_space). (* ;\s* *)

Definition extract_pairs_from_block (lines : list str) : result (list pair) :=
  let lines := filter (fun line => negb (should_skip_line line)) lines in
  match lines with
  | [] => Ok []
  | _ =>
      let '(ja_lines, en_lines) := fold_left separate lines ([], []) in
      if (List.length ja_lines =? List.length en_lines)%nat then
        Ok (fold_left
              (fun pairs '(ja, en) =>
                 if long_enough ja en then pairs ++ [(ja, en)] else pairs)
              (combine ja_lines en_lines) [])
      else if (List.length ja_lines =? 1)%nat
              && (1 <? List.length en_lines)%nat then
        ja <- index ja_lines 0 ;;
        let en := join (u " ") en_lines in
        let en := re_sub semicolon_pattern (u "; ") en in
        if long_enough ja en then Ok [(ja, en)] else Ok []
      else if (0 <? List.length ja_lines)%nat
              && (0 <? List.length en_lines)%nat then
        let min_len := Nat.min (List.length ja_lines) (List.length en_lines) in
        for_each
          (fun i pairs =>
             ja <- index ja_lines i ;;
             en <- index en_lines i ;;
             if long_enough ja en then Ok (pairs ++ [(ja, en)]) else Ok pairs)
          (seq 0 min_len) []
      else Ok []
  end.

(** [\n\n注[:：]\s*\n.*] with [re.DOTALL] *)
Definition notes_pattern1 : regex :=
  cat [lit [LF; LF]; lit (u "注"); Cls (one_of (u ":：")); Star is_space;
       chr LF; Star any].

(** [\n\nNotes?[:：]?\s*\n.*] with [re.DOTALL | re.IGNORECASE] *)
Definition notes_pattern2 : regex :=
  cat [lit [LF; LF]; Cls (icase 0x6E); Cls (icase 0x6F); Cls (icase 0x74);
       Cls (icase 0x65); Opt (Cls (icase 0x73)); Opt (Cls (one_of (u ":：")));
       Star is_space; chr LF; Star any].

(** [\n\n+] *)
Definition blank_pattern : regex := cat [chr LF; plus (Z.eqb LF)].

(** The steps of [extract_pairs_from_file] on the decoded text of the
    file (reading and decoding are not modelled). *)
Definition normalize_newlines (content : str) : str :=
  replace [CR] [LF] (replace [CR; LF] [LF] content).

Definition remove_notes (content : str) : str :=
  let content := re_sub notes_pattern1 [] content in
  let content := re_sub notes_pattern2 [] content in
  content.

(** [[line.strip() for line in block.split('\n') if line.strip()]] *)
Definition block_lines (block : str) : list str :=
  map strip
    (filter (fun line => negb (len (strip line) =? 0)%nat) (split LF block)).

Definition segment (content : str) : list (list str) :=
  map block_lines (re_split blank_pattern content).

Definition extract_pairs_from_file (content : str) : result (list pair) :=
  let content := normalize_newlines content in
  let content := remove_notes content in
  for_each
    (fun lines pairs =>
       block_pairs <- extract_pairs_from_block lines ;;
       Ok (pairs ++ block_pairs))
    (segment content) [].

(** [write_tsv]: the line written for one pair, and the whole output. *)
Definition sanitize (s : str) : str := replace [LF] [SPACE] (replace [TAB] [SPACE] s).

Definition tsv_line (p : pair) : str :=
  let '(ja, en) := p in
  let ja := sanitize ja in
  let en := sanitize en in
  ja ++ [TAB] ++ en ++ [LF].

Definition write_tsv (pairs : list pair) : str := List.concat (map tsv_line pairs).

End ExtractCorpus.

(* ================================================================== *)
(** ** corpus_raw/manual-alignment/reverse.py *)
(* ================================================================== *)

Module Reverse.
Import Py.

(** A [dict] with string keys, in insertion order (the order in which
    [json.dumps] writes the members). *)
Definition dict := list (string * str).

Fixpoint get (key : string) (d : dict) : option str :=
  match d with
  | [] => None
  | (k, v) :: d' => if String.eqb k key then Some v else get key d'
  end.

(** The body of the loop over the lines of one TSV file: the fields of
    [line], and the object written for it, or nothing when the line has
    no tab. *)
Definition line_parts (line : str) : list str :=
  let line := rstrip_by (Z.eqb LF) line in
  split_max TAB 2 line.

Definition convert_line (line : str) : result (option dict) :=
  let parts := line_parts line in
  if (2 <=? List.length parts)%nat then
    part0 <- index parts 0 ;;
    part1 <- index parts 1 ;;
    let obj := [("en"%string, part0); ("ja"%string, part1)] in
    Ok (Some obj)
  else Ok None.

(** Reading the TSV file.  The file is opened in text mode with the
    default [newline], so every '\r\n' and every other '\r' of the file
    is read as '\n'; the loop [for line in fin] then takes the text line
    by line, each line with the '\n' that ends it, the last one possibly
    without.  [data] is the text of the file; its UTF-8 encoding and
    decoding are not modelled, and the text is taken as [write_tsv] wrote
    it, '\n' being written as it is (as where [os.linesep] is '\n'). *)
Definition universal_newlines (data : str) : str :=
  replace [CR] [LF] (replace [CR; LF] [LF] data).

Fixpoint lines_of (text : str) : list str :=
  match text with
  | [] => []
  | c :: text' =>
      if (c =? LF)%Z then [LF] :: lines_of text'
      else match lines_of text' with
           | line :: lines => (c :: line) :: lines
           | [] => [[c]]
           end
  end.

Definition read_lines (data : str) : list str :=
  lines_of (universal_newlines data).

End Reverse.

(* ================================================================== *)
(** ** main.py *)
(* ================================================================== *)

Module Main.
Import Py Re.

Definition pair := (str * str)%type.

(** [is_japanese] and [clean_text] are the same text as in
    extract_corpus.py. *)
Definition is_japanese (text : str) : bool :=
  re_search (Cls ExtractCorpus.japanese_char) text.

Definition clean_text (text : str) : str :=
  let text := re_sub ExtractCorpus.entity_pattern [] text in
  let text := strip text in
  text.

Definition note_letter_pattern : regex :=            (* ^注[A-Z][:：] *)
  cat [lit (u "注"); Cls (in_range 0x41 0x5A); Cls (one_of (u ":："))].
Definition digits_pattern : regex :=                 (* ^\d+$ *)
  cat [plus is_decimal; Eos].

Definition should_skip_line (line : str) : bool :=
  let line := strip line in
  if (len line =? 0)%nat then true
  else if startswith line (u "（訳注：") || startswith line (u "(訳注:") then true
  else if re_match note_letter_pattern line then true
  else if re_match digits_pattern (strip line) then true
  else if contains (u "Version") line
          && (contains (u "Page") line || contains (u "Progress") line) then true
  else false.

Definition separate (acc : list str * list str) (line : str)
  : list str * list str :=
  let '(ja_lines, en_lines) := acc in
  let cleaned := clean_text line in
  if (len cleaned =? 0)%nat then acc
  else if is_japanese cleaned then (ja_lines ++ [cleaned], en_lines)
  else (ja_lines, en_lines ++ [cleaned]).

(** The body of the loop over the blocks in [extract_pairs_from_file],
    from the filtering of the block's lines on; [pairs] is the list of the
    pairs of the file so far. *)
Definition pairs_of_block (lines : list str) (pairs : list pair)
  : result (list pair) :=
  let lines := filter (fun line => negb (should_skip_line line)) lines in
  match lines with
  | [] => Ok pairs
  | _ =>
      let '(ja_lines, en_lines) := fold_left separate lines ([], []) in
      let min_len := Nat.min (List.length ja_lines) (List.length en_lines) in
      for_each
        (fun i pairs =>
           ja <- index ja_lines i ;;
           en <- index en_lines i ;;
           if (len ja <? 3)%nat || (len en <? 3)%nat then Ok pairs
           else Ok (pairs ++ [(ja, en)]))
        (seq 0 min_len) pairs
  end.

(** [\r?\n\r?\n+] *)
Definition blank_pattern : regex :=
  cat [Opt (chr CR); chr LF; Opt (chr CR); plus (Z.eqb LF)].

Definition block_lines (block : str) : list str :=
  map strip
    (filter (fun line => negb (len (strip line) =? 0)%nat) (split LF block)).

Definition segment (content : str) : list (list str) :=
  map block_lines (re_split blank_pattern content).

Definition extract_pairs_from_file (content : str) : result (list pair) :=
  for_each pairs_of_block (segment content) [].

End Main.

(* ================================================================== *)
(** ** corpus_raw/manual-alignment/separatoredjson.py *)
(* ================================================================== *)

Module SeparatoredJson.
Import Py.

Definition SEP_EN : str := u "%%%%%%%%THISWORKENDSHERE%%%%%%%%".
Definition SEP_JA : str := u "%%%%%%%%この作品ここまで%%%%%%%%".

(** The record written after the records of each work. *)
Definition sep_obj : Reverse.dict :=
  [("en"%string, SEP_EN); ("ja"%string, SEP_JA)].

End SeparatoredJson.

(* ================================================================== *)
(** ** Vocabulary of the properties *)
(* ================================================================== *)

Module Spec.
Import Py Re.

(** The filtered, classified lines of a block: the lines that the noise
    filter [skip] keeps, cleaned, the empty ones dropped, and then the
    Source lines (those with a Japanese-script character) and the Target
    lines (the others), each in the order of the block. *)
Definition cleaned_lines (skip : str -> bool) (lines : list str) : list str :=
  filter (fun cleaned => negb (len cleaned =? 0)%nat)
    (map ExtractCorpus.clean_text (filter (fun line => negb (skip line)) lines)).

Definition source_lines (skip : str -> bool) (lines : list str) : list str :=
  filter ExtractCorpus.is_japanese (cleaned_lines skip lines).

Definition target_lines (skip : str -> bool) (lines : list str) : list str :=
  filter (fun cleaned => negb (ExtractCorpus.is_japanese cleaned))
    (cleaned_lines skip lines).

(** The pairs (i-th Source line, i-th Target line) for the indices
    [i < n] at which both lines have at least three characters, by
    increasing [i]. *)
Definition both_long (ja en : list str) (i : nat) : bool :=
  (3 <=? len (nth i ja []))%nat && (3 <=? len (nth i en []))%nat.

Definition positional_pairs (ja en : list str) (n : nat) : list (str * str) :=
  map (fun i => (nth i ja [], nth i en [])) (filter (both_long ja en) (seq 0 n)).

(** Every semicolon, together with the whitespace that follows it, becomes
    a semicolon and one space.  [after] tells that the cursor is in the
    whitespace after a semicolon. *)
Fixpoint normalize_semicolons (after : bool) (s : str) : str :=
  match s with
  | [] => []
  | c :: s' =>
      if (c =? 0x3B)%Z then 0x3B%Z :: SPACE :: normalize_semicolons true s'
      else if after && is_space c then normalize_semicolons true s'
      else c :: normalize_semicolons false s'
  end.

(** A character of the Hiragana, Katakana or CJK Unified Ideographs
    blocks. *)
Definition japanese_script (c : Z) : Prop :=
  (0x3040 <= c <= 0x309F \/ 0x30A0 <= c <= 0x30FF \/ 0x4E00 <= c <= 0x9FFF)%Z.

Definition has_japanese (s : str) : Prop :=
  exists c, In c s /\ japanese_script c.

Definition no_japanese (s : str) : Prop :=
  forall c, In c s -> ~ japanese_script c.

(** A line survives the noise checks 1 to 7 of extract_corpus.py: none of
    the tests of [should_skip_line] before the length test fires on it. *)
Definition survives_checks_1_to_7 (line : str) : bool :=
  let line := strip line in
  negb (len line =? 0)%nat
  && negb (re_match ExtractCorpus.rule_pattern line)
  && negb (startswith line (u "http://") || startswith line (u "https://")
           || startswith line (u "<http"))
  && negb (re_match ExtractCorpus.bang_pattern line)
  && negb (startswith line (u "（訳注：") || startswith line (u "(訳注:")
           || startswith line (u "訳注："))
  && negb (re_match ExtractCorpus.note_label_pattern line
           || re_match ExtractCorpus.note_number_pattern line
           || re_match ExtractCorpus.note_letter_pattern line
           || re_match ExtractCorpus.digits_pattern line)
  && negb (contains (u "Version") line
           && (contains (u "Page") line || contains (u "Progress") line)).

(** [p] is a prefix of [s]. *)
Definition prefix_of (p s : str) : Prop := exists t, s = p ++ t.

(** The header lines of a footnote section: the label 注 with its colon;
    [Note] or [Notes] in any mix of cases, with or without a colon. *)
Definition ascii_lower (c : Z) : Z :=
  if in_range 0x41 0x5A c then (c + 32)%Z else c.

Definition label_header (h : str) : Prop :=
  h = u "注:" \/ h = u "注：".

Definition notes_header (h : str) : Prop :=
  exists word colon,
    h = word ++ colon
    /\ (map ascii_lower word = u "notes" \/ map ascii_lower word = u "note")
    /\ (colon = [] \/ colon = u ":" \/ colon = u "：").

(** A continuation of the matcher that, when it succeeds, has consumed
    the rest of the text: the case of a pattern that ends in [.*] under
    [re.DOTALL]. *)
Definition to_the_end (k : str -> option str) : Prop :=
  forall s, k s = None \/ k s = Some [].

(** Segmentation told by lines.  The groups of the lines of a text, cut
    at every empty line; in a group the lines are stripped and the blank
    ones dropped; the groups left empty do not count. *)
Fixpoint group_lines (ls : list str) : list (list str) :=
  match ls with
  | [] => [[]]
  | l :: ls' =>
      match l with
      | [] => [] :: group_lines ls'
      | _ :: _ =>
          match group_lines ls' with
          | g :: gs => (l :: g) :: gs
          | [] => [[l]]
          end
      end
  end.

Definition stripped_lines (ls : list str) : list str :=
  map strip (filter (fun line => negb (len (strip line) =? 0)%nat) ls).

Definition nonempty_blocks (blocks : list (list str)) : list (list str) :=
  filter (fun block => negb (List.length block =? 0)%nat) blocks.

Definition blocks_by_empty_lines (content : str) : list (list str) :=
  nonempty_blocks (map stripped_lines (group_lines (split LF content))).

(** Two lines of some block of [blocks]. *)
Definition same_block (blocks : list (list str)) (x y : str) : Prop :=
  exists block, In block blocks /\ In x block /\ In y block.

(** [x] put before the first of the pieces [ps]. *)
Definition prepend (x : str) (ps : list str) : list str :=
  match ps with
  | p :: ps' => (x ++ p) :: ps'
  | [] => [x]
  end.

(** The lines [ls] without their leading empty lines, the last line
    always kept. *)
Fixpoint skip_empty_lines (ls : list str) : list str :=
  match ls with
  | [] :: (_ :: _) as ls' => skip_empty_lines ls'
  | _ => ls
  end.

(** A line holds no newline. *)
Definition newline_free (l : str) : Prop := forall c, In c l -> c <> LF.

(** The blocks of the pieces that [re.split] makes of the lines [ls]
    joined by newlines, and the blocks of the groups of [ls], have the
    same first block and, from there on, the same non-empty blocks. *)
Definition heads_agree (ls : list str) : Prop :=
  exists b bs ss,
    map ExtractCorpus.block_lines
      (re_split ExtractCorpus.blank_pattern (join [LF] ls)) = b :: bs
    /\ map stripped_lines (group_lines ls) = b :: ss
    /\ nonempty_blocks bs = nonempty_blocks ss.

(** The two lists, of the Source and of the Target lines, that the loop
    of [extract_pairs_from_block] builds from the lines of a block. *)
Definition classify (lines : list str) : list str * list str :=
  fold_left ExtractCorpus.separate
    (filter (fun line => negb (ExtractCorpus.should_skip_line line)) lines)
    ([], []).

End Spec.

(* ================================================================== *)
(** ** Sample blocks and documents *)
(* ================================================================== *)

Module Examples.
Import Py.

Definition two_by_two : list str :=
  [u "その本を読んだ。"; u "I read that book."; u "&#1234はい"; u "Yes, indeed."].

Definition look_over_there : list str :=
  [u "見て。"; u "Look;"; u "over there."].

Definition three_against_two : list str :=
  [u "一行目です。"; u "The first line."; u "二行目です。"; u "The second line.";
   u "三行目です。"].


(** A body of one block, and a footnote section of two lines. *)
Definition body : str := u "本文です。" ++ [LF] ++ u "The body text.".

Definition footnotes : str :=
  u "脚注の文です。" ++ [LF] ++ u "The footnote text." ++ [LF].

(** The section under a header with a colon, under a bare label, and
    under a Notes header. *)
Definition doc_label_colon : str :=
  body ++ [LF; LF] ++ u "注：" ++ [SPACE] ++ [LF] ++ footnotes.

Definition doc_bare_label : str :=
  body ++ [LF; LF] ++ u "注" ++ [LF] ++ footnotes.

Definition doc_notes : str :=
  body ++ [LF; LF] ++ u "NOTES:" ++ [] ++ [LF] ++ footnotes.

(** A Notes header that is directly followed by a 注： section. *)
Definition doc_notes_then_label : str :=
  body ++ [LF; LF] ++ u "Notes:" ++ [LF; LF] ++ u "注：" ++ [LF] ++ footnotes.

(** Two blocks with a single empty line between them, and the same lines
    with a line of one space instead. *)
Definition doc_empty_line : str :=
  u "あいう" ++ [LF] ++ u "abc" ++ [LF; LF] ++ u "かきく" ++ [LF] ++ u "def".

Definition doc_space_line : str :=
  u "あいう" ++ [LF] ++ u "abc" ++ [LF; SPACE; LF] ++ u "かきく" ++ [LF] ++ u "def".

(** A text without any Japanese-script character. *)
Definition english_only : str :=
  u "I read that book." ++ [LF] ++ u "Look; over there." ++ [LF; LF]
  ++ u "Notes on the text.".

End Examples.

(* ================================================================== *)
(** ** Pair reconciliation *)
(* ================================================================== *)

Import Py Re Examples.
Module EC := ExtractCorpus.

Section Lists.
Variable A : Type.

Lemma index_lt (l : list A) (i : nat) (d : A) :
  i < List.length l -> index l i = Ok (nth i l d).
Proof.
  intro H. unfold index.
  rewrite (nth_error_nth' l d H). reflexivity.
Qed.

Lemma filter_map_swap (B : Type) (f : B -> bool) (g : A -> B) (l : list A) :
  filter f (map g l) = map g (filter (fun x => f (g x)) l).
Proof.
  induction l as [|x l IH]; simpl; [reflexivity|].
  destruct (f (g x)); simpl; now rewrite IH.
Qed.

Lemma combine_nth_seq (B : Type) (xs : list A) (ys : list B) (dx : A) (dy : B) :
  combine xs ys =
  map (fun i => (nth i xs dx, nth i ys dy))
      (seq 0 (Nat.min (List.length xs) (List.length ys))).
Proof.
  revert ys. induction xs as [|x xs IH]; intros [|y ys]; simpl; try reflexivity.
  f_equal. rewrite <- seq_shift, map_map. apply IH.
Qed.

End Lists.

(** The loop over the lines of a block computes the Source and the Target
    lines. *)
Lemma separate_fold (ls : list str) (ja0 en0 : list str) :
  fold_left EC.separate ls (ja0, en0) =
  (ja0 ++ filter EC.is_japanese
            (filter (fun c => negb (len c =? 0)%nat) (map EC.clean_text ls)),
   en0 ++ filter (fun c => negb (EC.is_japanese c))
            (filter (fun c => negb (len c =? 0)%nat) (map EC.clean_text ls))).
Proof.
  revert ja0 en0. induction ls as [|l ls IH]; intros ja0 en0; simpl.
  - now rewrite !app_nil_r.
  - destruct (len (EC.clean_text l) =? 0)%nat eqn:E; simpl.
    + apply IH.
    + destruct (EC.is_japanese (EC.clean_text l)) eqn:J; simpl;
        rewrite IH, <- ?app_assoc; reflexivity.
Qed.

Lemma separate_lines (skip : str -> bool) (lines : list str) :
  fold_left EC.separate (filter (fun line => negb (skip line)) lines) ([], []) =
  (Spec.source_lines skip lines, Spec.target_lines skip lines).
Proof. apply separate_fold. Qed.

Lemma main_separate_lines (skip : str -> bool) (lines : list str) :
  fold_left Main.separate (filter (fun line => negb (skip line)) lines) ([], []) =
  (Spec.source_lines skip lines, Spec.target_lines skip lines).
Proof. apply (separate_lines skip lines). Qed.

(** No kept line, no classified line. *)
Lemma no_kept_line (skip : str -> bool) (lines : list str) :
  filter (fun line => negb (skip line)) lines = [] ->
  Spec.source_lines skip lines = [] /\ Spec.target_lines skip lines = [].
Proof.
  intro H. unfold Spec.source_lines, Spec.target_lines, Spec.cleaned_lines.
  now rewrite H.
Qed.

(** The zip loop of the equal-count tier. *)
Lemma zip_loop (l : list (str * str)) (acc : list (str * str)) :
  fold_left
    (fun pairs '(ja, en) =>
       if EC.long_enough ja en then pairs ++ [(ja, en)] else pairs) l acc =
  acc ++ filter (fun p => EC.long_enough (fst p) (snd p)) l.
Proof.
  revert acc. induction l as [|[ja en] l IH]; intro acc; simpl.
  - now rewrite app_nil_r.
  - rewrite IH. destruct (EC.long_enough ja en); [|reflexivity].
    now rewrite <- app_assoc.
Qed.

Lemma zip_positional (ja en : list str) :
  filter (fun p => EC.long_enough (fst p) (snd p)) (combine ja en) =
  Spec.positional_pairs ja en (Nat.min (List.length ja) (List.length en)).
Proof.
  rewrite (combine_nth_seq ja en [] []), filter_map_swap. reflexivity.
Qed.

(** The index loop of the fallback tier (and of main.py): within the
    bounds of both lists it raises nothing and appends the positional
    pairs. *)
Lemma index_loop (ja en : list str) (n k : nat) (acc : list (str * str)) :
  k + n <= List.length ja -> k + n <= List.length en ->
  for_each
    (fun i pairs =>
       ja <- index ja i ;;
       en <- index en i ;;
       if EC.long_enough ja en then Ok (pairs ++ [(ja, en)]) else Ok pairs)
    (seq k n) acc =
  Ok (acc ++ map (fun i => (nth i ja [], nth i en []))
                 (filter (Spec.both_long ja en) (seq k n))).
Proof.
  revert k acc. induction n as [|n IH]; intros k acc Hja Hen; simpl.
  - now rewrite app_nil_r.
  - rewrite (index_lt ja [] (i:=k)), (index_lt en [] (i:=k)) by lia. simpl.
    unfold Spec.both_long at 1. fold (EC.long_enough (nth k ja []) (nth k en [])).
    destruct (EC.long_enough (nth k ja []) (nth k en [])); simpl;
      rewrite IH by lia; [now rewrite <- app_assoc | reflexivity].
Qed.

Lemma for_each_ext (I A : Type) (f g : I -> A -> result A) (l : list I) (a : A) :
  (forall i x, f i x = g i x) -> for_each f l a = for_each g l a.
Proof.
  intro H. revert a. induction l as [|i l IH]; intro a; simpl; [reflexivity|].
  rewrite H. destruct (g i a); simpl; [apply IH | reflexivity].
Qed.

Lemma too_short_long_enough (ja en : str) :
  (len ja <? 3)%nat || (len en <? 3)%nat = negb (EC.long_enough ja en).
Proof.
  unfold EC.long_enough.
  destruct (Nat.ltb_spec (len ja) 3), (Nat.leb_spec 3 (len ja)); try lia;
    destruct (Nat.ltb_spec (len en) 3), (Nat.leb_spec 3 (len en)); try lia;
    reflexivity.
Qed.

Lemma main_index_loop (ja en : list str) (n k : nat) (acc : list (str * str)) :
  k + n <= List.length ja -> k + n <= List.length en ->
  for_each
    (fun i pairs =>
       ja <- index ja i ;;
       en <- index en i ;;
       if (len ja <? 3)%nat || (len en <? 3)%nat then Ok pairs
       else Ok (pairs ++ [(ja, en)]))
    (seq k n) acc =
  Ok (acc ++ map (fun i => (nth i ja [], nth i en []))
                 (filter (Spec.both_long ja en) (seq k n))).
Proof.
  intros Hja Hen. rewrite <- index_loop by assumption.
  apply for_each_ext. intros i x.
  destruct (index ja i) as [a|]; simpl; [|reflexivity].
  destruct (index en i) as [b|]; simpl; [|reflexivity].
  rewrite too_short_long_enough. now destruct (EC.long_enough a b).
Qed.

Lemma positional_pairs_length (ja en : list str) (n : nat) :
  List.length (Spec.positional_pairs ja en n) <= n.
Proof.
  unfold Spec.positional_pairs. rewrite length_map.
  etransitivity; [apply filter_length_le|]. now rewrite length_seq.
Qed.

(** What [extract_pairs_from_block] computes, in terms of the classified
    lines of the block. *)
Lemma extract_pairs_from_block_eq (lines : list str) :
  let ja := Spec.source_lines EC.should_skip_line lines in
  let en := Spec.target_lines EC.should_skip_line lines in
  let min_len := Nat.min (List.length ja) (List.length en) in
  EC.extract_pairs_from_block lines =
  if (List.length ja =? List.length en)%nat then
    Ok (Spec.positional_pairs ja en min_len)
  else if (List.length ja =? 1)%nat && (1 <? List.length en)%nat then
    let en1 := re_sub EC.semicolon_pattern (u "; ") (join (u " ") en) in
    if EC.long_enough (nth 0 ja []) en1 then Ok [(nth 0 ja [], en1)] else Ok []
  else if (0 <? List.length ja)%nat && (0 <? List.length en)%nat then
    Ok (Spec.positional_pairs ja en min_len)
  else Ok [].
Proof.
  intros ja en min_len. unfold EC.extract_pairs_from_block.
  destruct (filter (fun line => negb (EC.should_skip_line line)) lines) eqn:E.
  - destruct (no_kept_line EC.should_skip_line lines E) as [Hja Hen].
    subst ja en min_len. rewrite Hja, Hen. reflexivity.
  - rewrite <- E, separate_lines. fold ja en.
    destruct (List.length ja =? List.length en)%nat.
    + rewrite zip_loop, zip_positional. reflexivity.
    + destruct ((List.length ja =? 1)%nat && (1 <? List.length en)%nat) eqn:F.
      * apply andb_prop in F. destruct F as [F _].
        apply Nat.eqb_eq in F.
        rewrite (index_lt ja [] (i:=0)) by lia. reflexivity.
      * destruct ((0 <? List.length ja)%nat && (0 <? List.length en)%nat);
          [|reflexivity].
        rewrite index_loop by lia. reflexivity.
Qed.

(** What one iteration of the block loop of main.py appends. *)
Lemma pairs_of_block_eq (lines : list str) (pairs : list (str * str)) :
  let ja := Spec.source_lines Main.should_skip_line lines in
  let en := Spec.target_lines Main.should_skip_line lines in
  Main.pairs_of_block lines pairs =
  Ok (pairs ++ Spec.positional_pairs ja en
                 (Nat.min (List.length ja) (List.length en))).
Proof.
  intros ja en. unfold Main.pairs_of_block.
  destruct (filter (fun line => negb (Main.should_skip_line line)) lines) eqn:E.
  - destruct (no_kept_line Main.should_skip_line lines E) as [Hja Hen].
    subst ja en. rewrite Hja, Hen. simpl. now rewrite app_nil_r.
  - rewrite <- E, main_separate_lines. fold ja en.
    rewrite main_index_loop by lia. reflexivity.
Qed.

(** C1. For a block whose classified lines are N > 0 Source lines and as
    many Target lines, reconciliation emits exactly the pairs (i-th Source
    line, i-th Target line) for the indices i < N at which both lines have
    at least three characters, by increasing i, and nothing else.  This
    holds of [extract_pairs_from_block] (extract_corpus.py) and of the
    block loop of main.py, each with its own noise filter. *)
Theorem equal_counts_positional_pairs :
  (forall lines : list str,
     let ja := Spec.source_lines EC.should_skip_line lines in
     let en := Spec.target_lines EC.should_skip_line lines in
     List.length ja = List.length en -> 0 < List.length ja ->
     EC.extract_pairs_from_block lines =
     Ok (Spec.positional_pairs ja en (List.length ja)))
  /\
  (forall (lines : list str) (pairs : list (str * str)),
     let ja := Spec.source_lines Main.should_skip_line lines in
     let en := Spec.target_lines Main.should_skip_line lines in
     List.length ja = List.length en -> 0 < List.length ja ->
     Main.pairs_of_block lines pairs =
     Ok (pairs ++ Spec.positional_pairs ja en (List.length ja))).
Proof.
  split.
  - intros lines ja en Heq _. rewrite extract_pairs_from_block_eq. fold ja en.
    rewrite <- Heq, Nat.eqb_refl, Nat.min_id. reflexivity.
  - intros lines pairs ja en Heq _. rewrite pairs_of_block_eq. fold ja en.
    rewrite <- Heq, Nat.min_id. reflexivity.
Qed.

Lemma equal_counts_positional_pairs_witness :
  EC.extract_pairs_from_block two_by_two =
  Ok [(u "その本を読んだ。", u "I read that book.")]
  /\ Main.pairs_of_block two_by_two [] =
     Ok [(u "その本を読んだ。", u "I read that book.")].
Proof.
  split.
  - refine (eq_trans (proj1 equal_counts_positional_pairs two_by_two _ _) _);
      [reflexivity | vm_compute; lia | reflexivity].
  - refine (eq_trans (proj2 equal_counts_positional_pairs two_by_two [] _ _) _);
      [reflexivity | vm_compute; lia | reflexivity].
Defined.

(** *** The semicolon substitution of the fan-in tier *)

Lemma lstrip_by_length (p : Z -> bool) (s : str) :
  List.length (lstrip_by p s) <= List.length s.
Proof.
  induction s as [|c s IH]; simpl; [lia|]. destruct (p c); simpl; lia.
Qed.

Lemma lstrip_by_skipn (p : Z -> bool) (s : str) :
  skipn (List.length s - List.length (lstrip_by p s)) s = lstrip_by p s.
Proof.
  induction s as [|c s IH]; [reflexivity|].
  pose proof (lstrip_by_length p s) as L.
  cbn [lstrip_by]. destruct (p c).
  - cbn [List.length].
    replace (S (List.length s) - List.length (lstrip_by p s))
      with (S (List.length s - List.length (lstrip_by p s))) by lia.
    exact IH.
  - now rewrite Nat.sub_diag.
Qed.

(** A greedy [p*] at the end of a pattern takes the longest run. *)
Lemma star_last (p : Z -> bool) (s : str) :
  star p Some s = Some (lstrip_by p s).
Proof.
  induction s as [|c s IH]; simpl; [reflexivity|].
  destruct (p c); [now rewrite IH | reflexivity].
Qed.

(** Passing over the rest of a match. *)
Lemma sub_from_skip (r : regex) (repl : str) (n : nat) (s : str) :
  sub_from r repl n s = sub_from r repl 0 (skipn n s).
Proof.
  revert n. induction s as [|c s IH]; intros [|n]; simpl; try reflexivity.
  apply IH.
Qed.

Lemma semicolon_match_len (s : str) :
  match_len EC.semicolon_pattern s =
  match s with
  | [] => None
  | c :: s' =>
      if (c =? 0x3B)%Z
      then Some (S (List.length s' - List.length (lstrip_by is_space s')))
      else None
  end.
Proof.
  destruct s as [|c s']; [reflexivity|].
  unfold match_len, match_at, EC.semicolon_pattern, chr. cbn [run].
  rewrite (Z.eqb_sym 59 c).
  destruct (c =? 59)%Z; [|reflexivity].
  rewrite star_last. f_equal. unfold len. simpl List.length.
  pose proof (lstrip_by_length is_space s'). lia.
Qed.

Lemma normalize_after (s : str) :
  Spec.normalize_semicolons true s =
  Spec.normalize_semicolons false (lstrip_by is_space s).
Proof.
  induction s as [|c s IH]; [reflexivity|].
  cbn [Spec.normalize_semicolons lstrip_by].
  destruct (c =? 59)%Z eqn:E.
  - apply Z.eqb_eq in E. subst c. reflexivity.
  - destruct (is_space c) eqn:W; cbn [andb]; [exact IH|].
    cbn [Spec.normalize_semicolons]. now rewrite E.
Qed.

(** [re.sub(r';\s*', '; ', s)] does what the words say. *)
Lemma re_sub_semicolons (s : str) :
  re_sub EC.semicolon_pattern (u "; ") s = Spec.normalize_semicolons false s.
Proof.
  unfold re_sub.
  remember (List.length s) as n eqn:Hn.
  assert (Hle : List.length s <= n) by lia. clear Hn.
  revert s Hle. induction n as [|n IH]; intros [|c s] Hle; simpl in Hle;
    try reflexivity; try lia.
  cbn [sub_from]. rewrite semicolon_match_len.
  cbn [Spec.normalize_semicolons].
  destruct (c =? 59)%Z.
  - rewrite sub_from_skip, lstrip_by_skipn, normalize_after.
    rewrite IH; [reflexivity|].
    pose proof (lstrip_by_length is_space s). lia.
  - simpl. rewrite IH by lia. reflexivity.
Qed.

(** C2, as the code has it.  In [extract_pairs_from_block]
    (extract_corpus.py), a block with exactly one Source line and k > 1
    Target lines yields at most one pair, whose target is the k Target
    lines joined by single spaces with every semicolon and the whitespace
    after it turned into a semicolon and one space; the pair is emitted
    when both sides have at least three characters.  The block loop of
    main.py has no such tier: there the one Source line is paired with the
    first Target line, unchanged. *)
Theorem fan_in_single_pair :
  (forall lines : list str,
     let ja := Spec.source_lines EC.should_skip_line lines in
     let en := Spec.target_lines EC.should_skip_line lines in
     let target := Spec.normalize_semicolons false (join [SPACE] en) in
     List.length ja = 1 -> 1 < List.length en ->
     EC.extract_pairs_from_block lines =
     Ok (if EC.long_enough (nth 0 ja []) target
         then [(nth 0 ja [], target)] else []))
  /\
  (forall (lines : list str) (pairs : list (str * str)),
     let ja := Spec.source_lines Main.should_skip_line lines in
     let en := Spec.target_lines Main.should_skip_line lines in
     List.length ja = 1 -> 1 < List.length en ->
     Main.pairs_of_block lines pairs =
     Ok (pairs ++ if EC.long_enough (nth 0 ja []) (nth 0 en [])
                  then [(nth 0 ja [], nth 0 en [])] else [])).
Proof.
  split.
  - intros lines ja en target Hja Hen.
    rewrite extract_pairs_from_block_eq. fold ja en. rewrite Hja.
    destruct (Nat.eqb_spec 1 (List.length en)) as [E|_]; [lia|].
    destruct (Nat.ltb_spec 1 (List.length en)) as [_|E]; [|lia].
    cbn [Nat.eqb andb]. cbv zeta. rewrite re_sub_semicolons.
    change (u " ") with [SPACE]. fold target.
    now destruct (EC.long_enough (nth 0 ja []) target).
  - intros lines pairs ja en Hja Hen.
    rewrite pairs_of_block_eq. fold ja en. rewrite Hja.
    replace (Nat.min 1 (List.length en)) with 1 by lia.
    unfold Spec.positional_pairs. cbn [seq filter].
    unfold Spec.both_long at 1.
    fold (EC.long_enough (nth 0 ja []) (nth 0 en [])).
    now destruct (EC.long_enough (nth 0 ja []) (nth 0 en [])).
Qed.

Lemma fan_in_single_pair_witness :
  EC.extract_pairs_from_block look_over_there =
  Ok [(u "見て。", u "Look; over there.")]
  /\ Main.pairs_of_block look_over_there [] = Ok [(u "見て。", u "Look;")].
Proof.
  split.
  - refine (eq_trans (proj1 fan_in_single_pair look_over_there _ _) _);
      [reflexivity | vm_compute; lia | reflexivity].
  - refine (eq_trans (proj2 fan_in_single_pair look_over_there [] _ _) _);
      [reflexivity | vm_compute; lia | reflexivity].
Defined.

(** C2 as stated fails on main.py: the block of the scenario has one
    Source and two Target lines, and the pair that main.py emits has the
    first Target line alone as its target, not the two lines joined. *)
Lemma fan_in_absent_in_main :
  let ja := Spec.source_lines Main.should_skip_line look_over_there in
  let en := Spec.target_lines Main.should_skip_line look_over_there in
  List.length ja = 1 /\ List.length en = 2
  /\ exists s t,
       Main.pairs_of_block look_over_there [] = Ok [(s, t)]
       /\ t = u "Look;"
       /\ t <> Spec.normalize_semicolons false (join [SPACE] en).
Proof.
  split; [reflexivity|]. split; [reflexivity|].
  exists (u "見て。"), (u "Look;").
  split; [reflexivity|]. split; [reflexivity|].
  vm_compute. discriminate.
Qed.

Lemma positional_pairs_In (ja en : list str) (n : nat) (p : str * str) :
  In p (Spec.positional_pairs ja en n) ->
  exists i, i < n /\ p = (nth i ja [], nth i en [])
            /\ 3 <= len (fst p) /\ 3 <= len (snd p).
Proof.
  unfold Spec.positional_pairs. intro H.
  apply in_map_iff in H. destruct H as (i & Hp & Hi).
  apply filter_In in Hi. destruct Hi as [Hi Hl].
  apply in_seq in Hi. unfold Spec.both_long in Hl.
  apply andb_prop in Hl. destruct Hl as [H1 H2].
  apply Nat.leb_le in H1, H2.
  exists i. subst p. simpl. repeat split; try assumption; lia.
Qed.

(** C3. For a block with unequal, non-zero numbers a of Source and b of
    Target lines that is not a fan-in block (a = 1 and b > 1),
    [extract_pairs_from_block] emits the pairs (i-th Source line, i-th
    Target line), i < min a b, that pass the length filter, in order: at
    most min a b pairs, none from a line at an index >= min a b.  The
    block loop of main.py does so for every block. *)
Theorem unequal_counts_shorter_side :
  (forall lines : list str,
     let ja := Spec.source_lines EC.should_skip_line lines in
     let en := Spec.target_lines EC.should_skip_line lines in
     let a := List.length ja in
     let b := List.length en in
     a <> b -> 0 < a -> 0 < b -> ~ (a = 1 /\ 1 < b) ->
     exists ps,
       EC.extract_pairs_from_block lines = Ok ps
       /\ ps = Spec.positional_pairs ja en (Nat.min a b)
       /\ List.length ps <= Nat.min a b
       /\ forall p, In p ps ->
            exists i, i < Nat.min a b /\ p = (nth i ja [], nth i en []))
  /\
  (forall (lines : list str) (pairs : list (str * str)),
     let ja := Spec.source_lines Main.should_skip_line lines in
     let en := Spec.target_lines Main.should_skip_line lines in
     let a := List.length ja in
     let b := List.length en in
     a <> b -> 0 < a -> 0 < b ->
     exists ps,
       Main.pairs_of_block lines pairs = Ok (pairs ++ ps)
       /\ ps = Spec.positional_pairs ja en (Nat.min a b)
       /\ List.length ps <= Nat.min a b
       /\ forall p, In p ps ->
            exists i, i < Nat.min a b /\ p = (nth i ja [], nth i en [])).
Proof.
  split.
  - intros lines ja en a b Hne Ha Hb Hfan.
    exists (Spec.positional_pairs ja en (Nat.min a b)).
    split; [|split; [reflexivity|split]].
    + rewrite extract_pairs_from_block_eq. fold ja en a b.
      destruct (Nat.eqb_spec a b) as [E|_]; [contradiction|].
      destruct (Nat.eqb_spec a 1) as [E1|E1];
        destruct (Nat.ltb_spec 1 b) as [E2|E2]; cbn [andb];
        try (exfalso; apply Hfan; split; assumption);
        destruct (Nat.ltb_spec 0 a); destruct (Nat.ltb_spec 0 b);
        try lia; reflexivity.
    + apply positional_pairs_length.
    + intros p Hp. apply positional_pairs_In in Hp.
      destruct Hp as (i & Hi & Hp & _). now exists i.
  - intros lines pairs ja en a b Hne Ha Hb.
    exists (Spec.positional_pairs ja en (Nat.min a b)).
    split; [|split; [reflexivity|split]].
    + apply pairs_of_block_eq.
    + apply positional_pairs_length.
    + intros p Hp. apply positional_pairs_In in Hp.
      destruct Hp as (i & Hi & Hp & _). now exists i.
Qed.

Lemma unequal_counts_shorter_side_witness :
  EC.extract_pairs_from_block three_against_two =
  Ok [(u "一行目です。", u "The first line.");
      (u "二行目です。", u "The second line.")]
  /\ Main.pairs_of_block three_against_two [] =
     Ok [(u "一行目です。", u "The first line.");
         (u "二行目です。", u "The second line.")].
Proof.
  split.
  - destruct (proj1 unequal_counts_shorter_side three_against_two)
      as (ps & Hrun & Hps & _);
      [vm_compute; lia | vm_compute; lia | vm_compute; lia | vm_compute; lia |].
    rewrite Hrun, Hps. reflexivity.
  - destruct (proj2 unequal_counts_shorter_side three_against_two [])
      as (ps & Hrun & Hps & _);
      [vm_compute; lia | vm_compute; lia | vm_compute; lia |].
    refine (eq_trans Hrun _). rewrite Hps. reflexivity.
Defined.

Lemma for_each_total (I A : Type) (body : I -> A -> result A) (l : list I) :
  (forall i a, exists a', body i a = Ok a') ->
  forall a, exists a', for_each body l a = Ok a'.
Proof.
  intro H. induction l as [|i l IH]; intro a; simpl.
  - now exists a.
  - destruct (H i a) as [a' Ha]. rewrite Ha. simpl. apply IH.
Qed.

(** The pairs of a block, whatever the counts. *)
Lemma extract_pairs_from_block_total (lines : list str) :
  let ja := Spec.source_lines EC.should_skip_line lines in
  let en := Spec.target_lines EC.should_skip_line lines in
  exists ps,
    EC.extract_pairs_from_block lines = Ok ps
    /\ List.length ps <= Nat.min (List.length ja) (List.length en).
Proof.
  intros ja en. rewrite extract_pairs_from_block_eq. fold ja en.
  destruct (List.length ja =? List.length en)%nat.
  { eexists. split; [reflexivity | apply positional_pairs_length]. }
  destruct (Nat.eqb_spec (List.length ja) 1) as [E1|E1];
    destruct (Nat.ltb_spec 1 (List.length en)) as [E2|E2]; cbn [andb].
  { cbv zeta.
    destruct (EC.long_enough _ _); eexists; (split; [reflexivity|]);
      simpl; lia. }
  all: destruct ((0 <? List.length ja)%nat && (0 <? List.length en)%nat);
    eexists; (split; [reflexivity|]);
    try apply positional_pairs_length; simpl; lia.
Qed.

(** C8. Reconciliation raises nothing, whatever the block:
    [extract_pairs_from_block] always returns a list of pairs, never
    longer than the smaller of the two counts, hence empty when either
    count is zero and in particular when the noise filter keeps no line.
    The same holds of the block loop of main.py, which then leaves the
    pairs of the file as they were, and both whole-file extractions
    return a list of pairs as well. *)
Theorem reconciliation_never_raises :
  (forall lines : list str,
     let ja := Spec.source_lines EC.should_skip_line lines in
     let en := Spec.target_lines EC.should_skip_line lines in
     exists ps,
       EC.extract_pairs_from_block lines = Ok ps
       /\ List.length ps <= Nat.min (List.length ja) (List.length en)
       /\ (List.length ja = 0 \/ List.length en = 0 -> ps = [])
       /\ (filter (fun line => negb (EC.should_skip_line line)) lines = []
           -> ps = []))
  /\
  (forall (lines : list str) (pairs : list (str * str)),
     let ja := Spec.source_lines Main.should_skip_line lines in
     let en := Spec.target_lines Main.should_skip_line lines in
     exists ps,
       Main.pairs_of_block lines pairs = Ok (pairs ++ ps)
       /\ List.length ps <= Nat.min (List.length ja) (List.length en)
       /\ (List.length ja = 0 \/ List.length en = 0 -> ps = [])
       /\ (filter (fun line => negb (Main.should_skip_line line)) lines = []
           -> ps = []))
  /\
  (forall content : str,
     (exists ps, EC.extract_pairs_from_file content = Ok ps)
     /\ (exists ps, Main.extract_pairs_from_file content = Ok ps)).
Proof.
  assert (Hzero : forall (ps : list (str * str)) a b,
             List.length ps <= Nat.min a b -> a = 0 \/ b = 0 -> ps = []).
  { intros ps a b Hle H0. destruct ps; [reflexivity|]. simpl in Hle. lia. }
  split; [|split].
  - intros lines ja en.
    destruct (extract_pairs_from_block_total lines) as (ps & Hrun & Hle).
    fold ja en in Hle. exists ps.
    split; [exact Hrun|]. split; [exact Hle|]. split.
    + apply (Hzero ps _ _ Hle).
    + intro Hnone. apply (Hzero ps _ _ Hle). left.
      destruct (no_kept_line EC.should_skip_line lines Hnone) as [Hja _].
      subst ja. now rewrite Hja.
  - intros lines pairs ja en.
    pose proof (positional_pairs_length ja en
                  (Nat.min (List.length ja) (List.length en))) as Hle.
    eexists. split; [apply pairs_of_block_eq|]. fold ja en.
    split; [exact Hle|]. split.
    + apply (Hzero _ _ _ Hle).
    + intro Hnone. apply (Hzero _ _ _ Hle). left.
      destruct (no_kept_line Main.should_skip_line lines Hnone) as [Hja _].
      subst ja. now rewrite Hja.
  - intro content. split.
    + apply for_each_total. intros lines pairs.
      destruct (extract_pairs_from_block_total lines) as (ps & Hrun & _).
      rewrite Hrun. simpl. eauto.
    + apply for_each_total. intros lines pairs.
      rewrite pairs_of_block_eq. eauto.
Qed.

Lemma reconciliation_never_raises_witness :
  EC.extract_pairs_from_block [u "---"; u ""; u "1."] = Ok []
  /\ Main.pairs_of_block [u "I read that book."] [] = Ok [].
Proof.
  split.
  - destruct (proj1 reconciliation_never_raises [u "---"; u ""; u "1."])
      as (ps & Hrun & _ & _ & Hnone).
    rewrite Hrun. f_equal. apply Hnone. reflexivity.
  - destruct (proj1 (proj2 reconciliation_never_raises)
                [u "I read that book."] [])
      as (ps & Hrun & _ & Hzero & _).
    refine (eq_trans Hrun _). rewrite (Hzero (or_introl eq_refl)). reflexivity.
Defined.

(* ================================================================== *)
(** ** Scripts of the two sides of a pair *)
(* ================================================================== *)

Lemma japanese_char_script (c : Z) :
  EC.japanese_char c = true <-> Spec.japanese_script c.
Proof.
  unfold EC.japanese_char, Spec.japanese_script, in_range.
  rewrite !orb_true_iff, !andb_true_iff, !Z.leb_le. tauto.
Qed.

(** [re.search] of a one-character class is a scan of the string. *)
Lemma is_japanese_existsb (s : str) :
  EC.is_japanese s = existsb EC.japanese_char s.
Proof.
  unfold EC.is_japanese. induction s as [|c s IH]; [reflexivity|].
  cbn [re_search existsb]. rewrite IH.
  unfold re_match, match_at. cbn [run].
  now destruct (EC.japanese_char c).
Qed.

Lemma is_japanese_has (s : str) :
  EC.is_japanese s = true -> Spec.has_japanese s.
Proof.
  rewrite is_japanese_existsb. intro H.
  apply existsb_exists in H. destruct H as (c & Hc & Hj).
  exists c. split; [exact Hc | now apply japanese_char_script].
Qed.

Lemma not_japanese_no (s : str) :
  EC.is_japanese s = false -> Spec.no_japanese s.
Proof.
  rewrite is_japanese_existsb. intros H c Hc Hj.
  apply japanese_char_script in Hj.
  assert (existsb EC.japanese_char s = true) as E
    by (apply existsb_exists; now exists c).
  congruence.
Qed.

Lemma source_lines_japanese (skip : str -> bool) (lines : list str) (s : str) :
  In s (Spec.source_lines skip lines) -> Spec.has_japanese s.
Proof.
  intro H. apply filter_In in H. apply is_japanese_has, H.
Qed.

Lemma target_lines_not_japanese (skip : str -> bool) (lines : list str) (t : str) :
  In t (Spec.target_lines skip lines) -> Spec.no_japanese t.
Proof.
  intro H. apply filter_In in H. destruct H as [_ H].
  apply not_japanese_no. now destruct (EC.is_japanese t).
Qed.

Lemma join_chars (sep : str) (l : list str) (c : Z) :
  In c (join sep l) -> In c sep \/ exists x, In x l /\ In c x.
Proof.
  induction l as [|x l IH]; [intros []|].
  destruct l as [|y l].
  - intro H. right. exists x. split; [now left | exact H].
  - change (join sep (x :: y :: l)) with (x ++ sep ++ join sep (y :: l)).
    rewrite !in_app_iff. intros [H|[H|H]].
    + right. exists x. split; [now left | exact H].
    + now left.
    + destruct (IH H) as [H'|(z & Hz & Hc)]; [now left|].
      right. exists z. split; [now right | exact Hc].
Qed.

Lemma normalize_semicolons_chars (after : bool) (s : str) (c : Z) :
  In c (Spec.normalize_semicolons after s) ->
  c = 0x3B%Z \/ c = SPACE \/ In c s.
Proof.
  revert after. induction s as [|x s IH]; intros aft; [intros []|].
  cbn [Spec.normalize_semicolons].
  destruct (x =? 59)%Z.
  - intros [H|[H|H]]; [now left | right; now left |].
    destruct (IH _ H) as [H'|[H'|H']]; auto.
    right. right. now right.
  - destruct (aft && is_space x).
    + intro H. destruct (IH _ H) as [H'|[H'|H']]; auto.
      right. right. now right.
    + intros [H|H]; [right; right; now left |].
      destruct (IH _ H) as [H'|[H'|H']]; auto.
      right. right. now right.
Qed.

Lemma positional_pairs_members (ja en : list str) (n : nat) (s t : str) :
  n <= Nat.min (List.length ja) (List.length en) ->
  In (s, t) (Spec.positional_pairs ja en n) -> In s ja /\ In t en.
Proof.
  intros Hn H. apply positional_pairs_In in H.
  destruct H as (i & Hi & Hp & _). inversion Hp; subst.
  split; apply nth_In; lia.
Qed.

(** C10. Every pair that [extract_pairs_from_block] returns has a source
    side with at least one Hiragana, Katakana or CJK Unified Ideographs
    character and a target side with none, the joined target of the
    fan-in tier included; so has every pair that the block loop of main.py
    adds to the pairs of the file. *)
Theorem emitted_pairs_scripts :
  (forall (lines : list str) (ps : list (str * str)),
     EC.extract_pairs_from_block lines = Ok ps ->
     forall s t, In (s, t) ps -> Spec.has_japanese s /\ Spec.no_japanese t)
  /\
  (forall (lines : list str) (pairs ps : list (str * str)),
     Main.pairs_of_block lines pairs = Ok (pairs ++ ps) ->
     forall s t, In (s, t) ps -> Spec.has_japanese s /\ Spec.no_japanese t).
Proof.
  split.
  - intros lines ps Hrun s t Hin.
    rewrite extract_pairs_from_block_eq in Hrun.
    set (ja := Spec.source_lines EC.should_skip_line lines) in *.
    set (en := Spec.target_lines EC.should_skip_line lines) in *.
    assert (Hpos : In (s, t) (Spec.positional_pairs ja en
                     (Nat.min (List.length ja) (List.length en))) ->
                   Spec.has_japanese s /\ Spec.no_japanese t).
    { intro H. apply positional_pairs_members in H; [|lia].
      destruct H as [Hs Ht]. split.
      - apply (@source_lines_japanese _ _ _ Hs).
      - apply (@target_lines_not_japanese _ _ _ Ht). }
    destruct (List.length ja =? List.length en)%nat.
    { inversion Hrun; subst ps. now apply Hpos. }
    destruct ((List.length ja =? 1)%nat && (1 <? List.length en)%nat) eqn:F.
    + apply andb_prop in F. destruct F as [F _]. apply Nat.eqb_eq in F.
      cbv zeta in Hrun. rewrite re_sub_semicolons in Hrun.
      change (u " ") with [SPACE] in Hrun.
      destruct (EC.long_enough _ _); inversion Hrun; subst ps;
        [|destruct Hin].
      destruct Hin as [Hin|[]]. inversion Hin; subst s t. split.
      * apply (@source_lines_japanese EC.should_skip_line lines).
        apply nth_In. fold ja. lia.
      * intros c Hc Hj.
        apply normalize_semicolons_chars in Hc.
        destruct Hc as [Hc|[Hc|Hc]];
          [subst c; unfold Spec.japanese_script in Hj; lia
          |subst c; unfold Spec.japanese_script, SPACE in Hj; lia|].
        apply join_chars in Hc. destruct Hc as [Hc|(x & Hx & Hc)].
        -- destruct Hc as [Hc|[]]. subst c.
           unfold Spec.japanese_script, SPACE in Hj. lia.
        -- apply (@target_lines_not_japanese _ _ _ Hx c Hc Hj).
    + destruct ((0 <? List.length ja)%nat && (0 <? List.length en)%nat);
        inversion Hrun; subst ps; [now apply Hpos | destruct Hin].
  - intros lines pairs ps Hrun s t Hin.
    rewrite pairs_of_block_eq in Hrun.
    inversion Hrun as [Happ]. apply app_inv_head in Happ. subst ps.
    apply positional_pairs_members in Hin; [|lia].
    destruct Hin as [Hs Ht]. split.
    + apply (@source_lines_japanese _ _ _ Hs).
    + apply (@target_lines_not_japanese _ _ _ Ht).
Qed.

Lemma emitted_pairs_scripts_witness :
  (Spec.has_japanese (u "見て。") /\ Spec.no_japanese (u "Look; over there."))
  /\ (Spec.has_japanese (u "見て。") /\ Spec.no_japanese (u "Look;")).
Proof.
  split.
  - apply (proj1 emitted_pairs_scripts look_over_there
             [(u "見て。", u "Look; over there.")]);
      [reflexivity | now left].
  - apply (proj2 emitted_pairs_scripts look_over_there []
             [(u "見て。", u "Look;")]);
      [reflexivity | now left].
Defined.

(* ================================================================== *)
(** ** Serialisation: TSV lines and JSON records *)
(* ================================================================== *)

(** Replacing a one-character string is a map over the characters. *)
Lemma replace_char (a b : Z) (s : str) :
  replace [a] [b] s = map (fun c => if (c =? a)%Z then b else c) s.
Proof.
  unfold replace. induction s as [|c s IH]; [reflexivity|].
  cbn [replace_from startswith map len List.length].
  rewrite andb_true_r. destruct (c =? a)%Z; cbn [app]; now rewrite IH.
Qed.

Lemma sanitize_map (s : str) :
  EC.sanitize s =
  map (fun c => if (c =? TAB)%Z || (c =? LF)%Z then SPACE else c) s.
Proof.
  unfold EC.sanitize. rewrite !replace_char, map_map.
  apply map_ext. intro c.
  destruct (c =? TAB)%Z eqn:T; [reflexivity|].
  destruct (c =? LF)%Z; reflexivity.
Qed.

Lemma sanitize_clean (s : str) (c : Z) :
  In c (EC.sanitize s) -> c <> TAB /\ c <> LF.
Proof.
  rewrite sanitize_map, in_map_iff. intros (x & Hx & _). subst c.
  destruct (Z.eqb_spec x TAB) as [E|E]; cbn [orb];
    [split; discriminate|].
  destruct (Z.eqb_spec x LF) as [F|F]; [split; discriminate|].
  now split.
Qed.


Lemma lstrip_by_stop (p : Z -> bool) (l r : str) (c : Z) :
  (forall x, In x l -> p x = false) -> p c = false ->
  lstrip_by p (l ++ c :: r) = l ++ c :: r.
Proof.
  intros Hl Hc. destruct l as [|x l]; cbn [app lstrip_by].
  - now rewrite Hc.
  - now rewrite (Hl x (or_introl eq_refl)).
Qed.

Lemma split_max_no_sep (sep : Z) (n : nat) (s : str) :
  (forall c, In c s -> c <> sep) -> split_max sep n s = [s].
Proof.
  intro H. induction s as [|c s IH]; [reflexivity|].
  cbn [split_max]. destruct n; [reflexivity|].
  destruct (Z.eqb_spec c sep) as [E|_]; [now destruct (H c (or_introl eq_refl))|].
  rewrite IH; [reflexivity|]. intros x Hx. apply H. now right.
Qed.

Lemma split_max_first (sep : Z) (n : nat) (x y : str) :
  (forall c, In c x -> c <> sep) ->
  split_max sep (S n) (x ++ sep :: y) = x :: split_max sep n y.
Proof.
  intro H. induction x as [|c x IH]; cbn [app split_max].
  - now rewrite Z.eqb_refl.
  - destruct (Z.eqb_spec c sep) as [E|_]; [now destruct (H c (or_introl eq_refl))|].
    rewrite IH; [reflexivity|]. intros z Hz. apply H. now right.
Qed.

(** The fields read back from the line written for a pair are the
    sanitised sides of the pair, in the order written. *)
Lemma line_parts_tsv_line (ja en : str) :
  Reverse.line_parts (EC.tsv_line (ja, en)) = [EC.sanitize ja; EC.sanitize en].
Proof.
  unfold Reverse.line_parts, EC.tsv_line, rstrip_by.
  assert (Hja : forall c, In c (EC.sanitize ja) -> c <> TAB)
    by (intros c Hc; now apply sanitize_clean in Hc).
  assert (Hen : forall c, In c (EC.sanitize en) -> c <> TAB)
    by (intros c Hc; now apply sanitize_clean in Hc).
  assert (Hlf : forall c, In c (rev (EC.sanitize en)) -> (LF =? c)%Z = false).
  { intros c Hc. apply in_rev in Hc. apply sanitize_clean in Hc.
    apply Z.eqb_neq. intro E. destruct Hc as [_ Hc]. apply Hc.
    now symmetry. }
  replace (rev (EC.sanitize ja ++ [TAB] ++ EC.sanitize en ++ [LF]))
    with (LF :: rev (EC.sanitize en) ++ TAB :: rev (EC.sanitize ja)).
  2:{ rewrite !rev_app_distr. cbn [rev app]. rewrite <- !app_assoc.
      reflexivity. }
  cbn [lstrip_by]. rewrite Z.eqb_refl.
  rewrite lstrip_by_stop; [|exact Hlf|reflexivity].
  rewrite rev_app_distr. cbn [rev]. rewrite !rev_involutive, <- app_assoc.
  cbn [app]. rewrite split_max_first by exact Hja.
  now rewrite split_max_no_sep by exact Hen.
Qed.

Lemma convert_line_tsv_line (ja en : str) :
  Reverse.convert_line (EC.tsv_line (ja, en)) =
  Ok (Some [("en"%string, EC.sanitize ja); ("ja"%string, EC.sanitize en)]).
Proof.
  unfold Reverse.convert_line. rewrite line_parts_tsv_line. reflexivity.
Qed.

(** C4. The record that reverse.py writes for the TSV line of a pair has
    the pair's sourceText (the Japanese side, written first by
    [write_tsv]) under the key "en" and its targetText under "ja": the
    reverse of what the claim says, and of the record of
    separatoredjson.py, whose "en" member is the English sentinel.  For
    the pair of the first scenario the member "en" is the Japanese
    sentence. *)
Theorem json_record_members :
  (forall ja en : str,
     exists obj,
       Reverse.convert_line (EC.tsv_line (ja, en)) = Ok (Some obj)
       /\ Reverse.get "en" obj = Some (EC.sanitize ja)
       /\ Reverse.get "ja" obj = Some (EC.sanitize en))
  /\
  (exists obj,
     Reverse.convert_line
       (EC.tsv_line (u "その本を読んだ。", u "I read that book.")) = Ok (Some obj)
     /\ Reverse.get "en" obj = Some (u "その本を読んだ。")
     /\ Reverse.get "ja" obj = Some (u "I read that book."))
  /\
  (exists en ja,
     Reverse.get "en" SeparatoredJson.sep_obj = Some en
     /\ Reverse.get "ja" SeparatoredJson.sep_obj = Some ja
     /\ EC.is_japanese en = false /\ EC.is_japanese ja = true).
Proof.
  split; [|split].
  - intros ja en. eexists. split; [apply convert_line_tsv_line|].
    split; reflexivity.
  - eexists. split; [reflexivity|]. split; reflexivity.
  - exists SeparatoredJson.SEP_EN, SeparatoredJson.SEP_JA.
    repeat split; reflexivity.
Qed.


(** C9 as stated fails: a line with a tab in its middle is extracted as a
    Source line; after sanitisation neither side of the pair contains a
    tab, yet the fields read back are not the original strings. *)


(* ================================================================== *)
(** ** The noise filter *)
(* ================================================================== *)

(** [should_skip_line] is the seven checks followed by the length test on
    the stripped line. *)
Lemma should_skip_line_eq (line : str) :
  EC.should_skip_line line =
  negb (Spec.survives_checks_1_to_7 line) || (len (strip line) <=? 2)%nat.
Proof.
  unfold EC.should_skip_line, Spec.survives_checks_1_to_7. cbv zeta.
  destruct (len (strip line) =? 0)%nat; [reflexivity|].
  destruct (re_match EC.rule_pattern (strip line)); [reflexivity|].
  destruct (startswith (strip line) (u "http://") ||
            startswith (strip line) (u "https://") ||
            startswith (strip line) (u "<http")); [reflexivity|].
  destruct (re_match EC.bang_pattern (strip line)); [reflexivity|].
  destruct (startswith (strip line) (u "（訳注：") ||
            startswith (strip line) (u "(訳注:") ||
            startswith (strip line) (u "訳注：")); [reflexivity|].
  destruct (re_match EC.note_label_pattern (strip line)); [reflexivity|].
  destruct (re_match EC.note_number_pattern (strip line)); [reflexivity|].
  destruct (re_match EC.note_letter_pattern (strip line)); [reflexivity|].
  destruct (re_match EC.digits_pattern (strip line)); [reflexivity|].
  destruct (contains (u "Version") (strip line) &&
            (contains (u "Page") (strip line) ||
             contains (u "Progress") (strip line))); [reflexivity|].
  cbn [negb andb orb]. now destruct (len (strip line) <=? 2)%nat.
Qed.

(** C7 as stated fails: the line [&#1234ab] passes all the checks, its
    cleaned text [ab] has two characters, and yet it is classified (as a
    Target line) and takes part in the pairing: here it is joined into
    the target of a fan-in pair. *)
Lemma short_cleaned_line_is_classified :
  Spec.survives_checks_1_to_7 (u "&#1234ab") = true
  /\ EC.clean_text (u "&#1234ab") = u "ab"
  /\ EC.should_skip_line (u "&#1234ab") = false
  /\ Spec.target_lines EC.should_skip_line
       [u "あいうえ"; u "&#1234ab"; u "hello"] = [u "ab"; u "hello"]
  /\ EC.extract_pairs_from_block [u "あいうえ"; u "&#1234ab"; u "hello"] =
     Ok [(u "あいうえ", u "ab hello")].
Proof. repeat split; reflexivity. Qed.

(* ================================================================== *)
(** ** Removal of the footnote section *)
(* ================================================================== *)

Lemma prefix_of_nil (s : str) : Spec.prefix_of [] s.
Proof. now exists s. Qed.

Lemma prefix_of_cons (c : Z) (p s : str) :
  Spec.prefix_of p s -> Spec.prefix_of (c :: p) (c :: s).
Proof. intros [t ->]. now exists t. Qed.

Lemma prefix_of_trans (p q s : str) :
  Spec.prefix_of p q -> Spec.prefix_of q s -> Spec.prefix_of p s.
Proof. intros [t ->] [t' ->]. exists (t ++ t'). now rewrite app_assoc. Qed.

Lemma prefix_of_app (p s t : str) :
  Spec.prefix_of p s -> Spec.prefix_of p (s ++ t).
Proof. intros [x ->]. exists (x ++ t). now rewrite app_assoc. Qed.

(** Two prefixes of one text are comparable. *)
Lemma prefix_of_both (p q s : str) :
  Spec.prefix_of p s -> Spec.prefix_of q s ->
  Spec.prefix_of p q \/ Spec.prefix_of q p.
Proof.
  revert q s. induction p as [|c p IH]; intros q s Hp Hq.
  - left. apply prefix_of_nil.
  - destruct q as [|d q]; [right; apply prefix_of_nil|].
    destruct Hp as [t Hp], Hq as [t' Hq]. subst s.
    inversion Hq; subst d.
    destruct (IH q (p ++ t)) as [H|H];
      [now exists t | now exists t' | left | right];
      now apply prefix_of_cons.
Qed.

(** *** The matcher on patterns that end in [.*] *)

Lemma star_to_the_end (p : Z -> bool) (k : str -> option str) :
  Spec.to_the_end k -> Spec.to_the_end (star p k).
Proof.
  intros Hk s. induction s as [|c s IH]; cbn [star]; [apply Hk|].
  destruct (p c); [|apply Hk].
  destruct IH as [-> | ->]; [apply Hk | now right].
Qed.

Lemma run_to_the_end (r : regex) (k : str -> option str) :
  Spec.to_the_end k -> Spec.to_the_end (run r k).
Proof.
  revert k. induction r as [|p|a IHa b IHb|a IHa|p|]; intros k Hk s;
    cbn [run].
  - apply Hk.
  - destruct s as [|c s]; [now left|]. destruct (p c); [apply Hk | now left].
  - apply IHa. now apply IHb.
  - destruct (IHa k Hk s) as [-> | ->]; [apply Hk | now right].
  - now apply star_to_the_end.
  - destruct s as [|c [|d s]]; [apply Hk | | now left].
    destruct (c =? LF)%Z; [apply Hk | now left].
Qed.

Lemma dot_star_all (s : str) : run (Star any) (run Eps Some) s = Some [].
Proof.
  cbn [run]. induction s as [|c s IH]; [reflexivity|].
  cbn [star any]. now rewrite IH.
Qed.

Lemma dot_star_to_the_end : Spec.to_the_end (run (Star any) (run Eps Some)).
Proof. intro s. right. apply dot_star_all. Qed.

(** A match found by such a pattern reaches the end of the text. *)
Lemma success_to_the_end (k : str -> option str) (s : str) :
  Spec.to_the_end k -> k s <> None -> k s = Some [].
Proof. intros Hk Hs. now destruct (Hk s). Qed.

(** [p*] followed by [k] succeeds when [k] does after a run of [p]. *)
Lemma star_succeeds (p : Z -> bool) (k : str -> option str) (w t : str) :
  forallb p w = true -> k t <> None -> star p k (w ++ t) <> None.
Proof.
  intros Hw Hk. induction w as [|c w IH]; cbn [app].
  - destruct t as [|c t]; cbn [star]; [exact Hk|].
    destruct (p c); [|exact Hk].
    now destruct (star p k t).
  - cbn [forallb] in Hw. apply andb_prop in Hw. destruct Hw as [Hc Hw].
    cbn [star]. rewrite Hc.
    specialize (IH Hw). now destruct (star p k (w ++ t)).
Qed.

Lemma opt_skips (a : regex) (k : str -> option str) (s : str) :
  k s <> None -> run (Opt a) k s <> None.
Proof. intro H. cbn [run]. now destruct (run a k s). Qed.

Lemma opt_takes (p : Z -> bool) (k : str -> option str) (c : Z) (s : str) :
  p c = true -> k s <> None -> run (Opt (Cls p)) k (c :: s) <> None.
Proof. intros Hc H. cbn [run]. rewrite Hc. now destruct (k s). Qed.

Lemma cls_takes (p : Z -> bool) (k : str -> option str) (c : Z) (s : str) :
  p c = true -> run (Cls p) k (c :: s) = k s.
Proof. intro Hc. cbn [run]. now rewrite Hc. Qed.

(** The tail [\s*\n.*] of the two patterns, on whitespace up to a
    newline. *)
Lemma header_tail_succeeds (ws rest : str) :
  forallb is_space ws = true ->
  run (Star is_space) (run (chr LF) (run (Star any) (run Eps Some)))
      (ws ++ [LF] ++ rest) <> None.
Proof.
  intro Hws. change (run (Star is_space) ?k) with (star is_space k).
  apply star_succeeds; [exact Hws|].
  cbn [app]. unfold chr. rewrite cls_takes by apply Z.eqb_refl.
  rewrite dot_star_all. discriminate.
Qed.

(** *** Substitution by the empty string of a pattern that ends in [.*] *)

Lemma sub_from_all (r : regex) (repl s : str) :
  sub_from r repl (List.length s) s = [].
Proof. rewrite sub_from_skip, skipn_all. reflexivity. Qed.

Lemma cut_prefix (r : regex) (s : str) :
  (forall t, match_at r t = None \/ match_at r t = Some []) ->
  Spec.prefix_of (re_sub r [] s) s.
Proof.
  intro Hr. unfold re_sub. induction s as [|c s IH]; [apply prefix_of_nil|].
  cbn [sub_from]. unfold match_len.
  destruct (Hr (c :: s)) as [-> | ->].
  - now apply prefix_of_cons.
  - unfold len. cbn [List.length]. rewrite Nat.sub_0_r. cbn [app].
    rewrite sub_from_all. apply prefix_of_nil.
Qed.

Lemma cut_at_match (r : regex) (pre t : str) :
  (forall t, match_at r t = None \/ match_at r t = Some []) ->
  match_at r t <> None ->
  Spec.prefix_of (re_sub r [] (pre ++ t)) pre.
Proof.
  intros Hr Ht. unfold re_sub. induction pre as [|c pre IH]; cbn [app].
  - destruct t as [|c t]; [apply prefix_of_nil|].
    cbn [sub_from]. unfold match_len.
    destruct (Hr (c :: t)) as [H|H]; [contradiction|]. rewrite H.
    unfold len. cbn [List.length]. rewrite Nat.sub_0_r. cbn [app].
    rewrite sub_from_all. apply prefix_of_nil.
  - cbn [sub_from]. unfold match_len.
    destruct (Hr (c :: pre ++ t)) as [-> | ->].
    + now apply prefix_of_cons.
    + unfold len. cbn [List.length]. rewrite Nat.sub_0_r. cbn [app].
      rewrite sub_from_all. apply prefix_of_nil.
Qed.

Ltac peel_cat :=
  repeat match goal with
         | |- context [run (Cat ?a ?b) ?k] =>
             change (run (Cat a b) k) with (run a (run b k))
         end.

Lemma notes_pattern1_to_the_end (t : str) :
  match_at EC.notes_pattern1 t = None \/ match_at EC.notes_pattern1 t = Some [].
Proof.
  unfold match_at, EC.notes_pattern1, cat. cbn [fold_right]. peel_cat.
  apply run_to_the_end.
  repeat first [apply dot_star_to_the_end | apply run_to_the_end].
Qed.

Lemma notes_pattern2_to_the_end (t : str) :
  match_at EC.notes_pattern2 t = None \/ match_at EC.notes_pattern2 t = Some [].
Proof.
  unfold match_at, EC.notes_pattern2, cat. cbn [fold_right]. peel_cat.
  apply run_to_the_end.
  repeat first [apply dot_star_to_the_end | apply run_to_the_end].
Qed.

Lemma run_lit (s : str) (k : str -> option str) (rest : str) :
  run (lit s) k (s ++ rest) = k rest.
Proof.
  unfold lit, cat. induction s as [|c s IH]; [reflexivity|].
  cbn [map fold_right app].
  change (run (Cat ?a ?b) k) with (run a (run b k)).
  unfold chr at 1. rewrite cls_takes by apply Z.eqb_refl. exact IH.
Qed.

Lemma notes_pattern1_matches (hdr ws rest : str) :
  Spec.label_header hdr -> forallb is_space ws = true ->
  match_at EC.notes_pattern1 ([LF; LF] ++ hdr ++ ws ++ [LF] ++ rest) <> None.
Proof.
  intros Hhdr Hws.
  unfold match_at, EC.notes_pattern1, cat. cbn [fold_right]. peel_cat.
  rewrite run_lit.
  destruct Hhdr as [-> | ->];
    (change (u "注:") with (u "注" ++ [0x3A%Z])
     || change (u "注：") with (u "注" ++ [0xFF1A%Z]));
    rewrite <- app_assoc, run_lit; cbn [app];
    rewrite cls_takes by reflexivity; apply header_tail_succeeds, Hws.
Qed.

Lemma icase_of_lower (c x : Z) :
  Spec.ascii_lower x = c -> icase c x = true.
Proof.
  unfold Spec.ascii_lower, icase. intro H.
  destruct (in_range 65 90 x).
  - assert (E : (x =? c - 32)%Z = true) by (apply Z.eqb_eq; lia).
    rewrite E. now rewrite orb_true_r.
  - subst c. now rewrite Z.eqb_refl.
Qed.

(** What follows the word [note] in a header: an optional [s], an optional
    colon, whitespace up to a newline. *)
Lemma notes_colon_tail (colon ws rest : str) :
  colon = [] \/ colon = u ":" \/ colon = u "：" ->
  forallb is_space ws = true ->
  run (Opt (Cls (one_of (u ":："))))
      (run (Star is_space) (run (chr LF) (run (Star any) (run Eps Some))))
      (colon ++ ws ++ [LF] ++ rest) <> None.
Proof.
  intros [-> | [-> | ->]] Hws.
  - apply opt_skips. now apply header_tail_succeeds.
  - apply opt_takes; [reflexivity | now apply header_tail_succeeds].
  - apply opt_takes; [reflexivity | now apply header_tail_succeeds].
Qed.

Lemma notes_pattern2_matches (hdr ws rest : str) :
  Spec.notes_header hdr -> forallb is_space ws = true ->
  match_at EC.notes_pattern2 ([LF; LF] ++ hdr ++ ws ++ [LF] ++ rest) <> None.
Proof.
  intros (word & colon & -> & Hword & Hcolon) Hws.
  unfold match_at, EC.notes_pattern2, cat. cbn [fold_right]. peel_cat.
  rewrite run_lit, <- app_assoc.
  destruct Hword as [Hword|Hword].
  - change (u "notes") with [0x6E; 0x6F; 0x74; 0x65; 0x73]%Z in Hword.
    destruct word as [|a [|b [|c [|d [|e [|f word]]]]]]; try discriminate.
    cbn [map] in Hword. injection Hword as Ha Hb Hc Hd He.
    cbn [app].
    rewrite !cls_takes by now apply icase_of_lower.
    apply opt_takes; [now apply icase_of_lower|].
    now apply notes_colon_tail.
  - change (u "note") with [0x6E; 0x6F; 0x74; 0x65]%Z in Hword.
    destruct word as [|a [|b [|c [|d [|e word]]]]]; try discriminate.
    cbn [map] in Hword. injection Hword as Ha Hb Hc Hd.
    cbn [app].
    rewrite !cls_takes by now apply icase_of_lower.
    apply opt_skips. now apply notes_colon_tail.
Qed.

Lemma prefix_of_app_inv (h x y : str) :
  Spec.prefix_of (h ++ x) (h ++ y) -> Spec.prefix_of x y.
Proof.
  intros [t Ht]. rewrite <- app_assoc in Ht. apply app_inv_head in Ht.
  now exists t.
Qed.

(** C6, as the code has it.  Take a text in which an empty line (two
    consecutive newlines) is followed by a header line and this by
    whitespace up to a newline, [pre] being the text before the two
    newlines.  If the header is 注 with a colon, ASCII or full-width, all
    that is left for the segmentation is a prefix of [pre]: the header
    and everything after it are gone.  If the header is Note or Notes, in
    any case and with or without a colon, the second substitution cuts
    such a text down to a prefix of [pre], and the two substitutions in
    sequence leave at most the text up to the whitespace after the
    header: nothing beyond the header line remains. *)
Theorem footnote_section_removed :
  forall pre hdr ws rest : str,
    forallb is_space ws = true ->
    (Spec.label_header hdr ->
     Spec.prefix_of
       (EC.remove_notes (pre ++ [LF; LF] ++ hdr ++ ws ++ [LF] ++ rest)) pre)
    /\
    (Spec.notes_header hdr ->
     Spec.prefix_of
       (re_sub EC.notes_pattern2 []
          (pre ++ [LF; LF] ++ hdr ++ ws ++ [LF] ++ rest)) pre
     /\ Spec.prefix_of
          (EC.remove_notes (pre ++ [LF; LF] ++ hdr ++ ws ++ [LF] ++ rest))
          (pre ++ [LF; LF] ++ hdr ++ ws)).
Proof.
  intros pre hdr ws rest Hws. split.
  - intro Hhdr. unfold EC.remove_notes.
    eapply prefix_of_trans.
    + apply cut_prefix, notes_pattern2_to_the_end.
    + apply cut_at_match; [apply notes_pattern1_to_the_end|].
      now apply notes_pattern1_matches.
  - intro Hhdr.
    assert (Hcut : forall rest',
               Spec.prefix_of
                 (re_sub EC.notes_pattern2 []
                    (pre ++ [LF; LF] ++ hdr ++ ws ++ [LF] ++ rest')) pre).
    { intro rest'. apply cut_at_match; [apply notes_pattern2_to_the_end|].
      now apply notes_pattern2_matches. }
    split; [apply Hcut|].
    unfold EC.remove_notes.
    set (content := pre ++ [LF; LF] ++ hdr ++ ws ++ [LF] ++ rest).
    set (kept := pre ++ [LF; LF] ++ hdr ++ ws).
    assert (Hcontent : content = kept ++ [LF] ++ rest)
      by (unfold content, kept; now rewrite <- !app_assoc).
    assert (H1 : Spec.prefix_of (re_sub EC.notes_pattern1 [] content) content)
      by apply cut_prefix, notes_pattern1_to_the_end.
    assert (H2 : Spec.prefix_of kept content)
      by (exists ([LF] ++ rest); exact Hcontent).
    destruct (@prefix_of_both _ _ _ H1 H2) as [Hle|Hge].
    + eapply prefix_of_trans; [|exact Hle].
      apply cut_prefix, notes_pattern2_to_the_end.
    + destruct Hge as [x Hx]. rewrite Hx.
      destruct x as [|c x].
      * rewrite app_nil_r. apply cut_prefix, notes_pattern2_to_the_end.
      * rewrite Hx, Hcontent in H1. apply prefix_of_app_inv in H1.
        destruct H1 as [t Ht]. inversion Ht; subst c.
        eapply prefix_of_trans; [|exists ([LF; LF] ++ hdr ++ ws); reflexivity].
        replace (kept ++ LF :: x)
          with (pre ++ [LF; LF] ++ hdr ++ ws ++ [LF] ++ x)
          by (unfold kept; now rewrite <- !app_assoc).
        apply Hcut.
Qed.

Lemma footnote_section_removed_witness :
  Spec.prefix_of (EC.remove_notes doc_label_colon) body
  /\ Spec.prefix_of (re_sub EC.notes_pattern2 [] doc_notes) body
  /\ Spec.prefix_of (EC.remove_notes doc_notes)
       (body ++ [LF; LF] ++ u "NOTES:" ++ []).
Proof.
  assert (Hnotes : Spec.notes_header (u "NOTES:")).
  { exists (u "NOTES"), (u ":"). split; [reflexivity|].
    split; [left; reflexivity | right; left; reflexivity]. }
  split; [|split].
  - unfold doc_label_colon.
    apply footnote_section_removed; [reflexivity|]. right. reflexivity.
  - unfold doc_notes.
    apply footnote_section_removed; [reflexivity | exact Hnotes].
  - unfold doc_notes.
    apply footnote_section_removed; [reflexivity | exact Hnotes].
Defined.

(** C6 as stated fails for the bare label: under a header line 注 without
    a colon nothing is removed, and the two lines of the footnote section
    make a pair. *)
Lemma bare_label_section_is_kept :
  EC.remove_notes doc_bare_label = doc_bare_label
  /\ EC.extract_pairs_from_file doc_bare_label =
     Ok [(u "本文です。", u "The body text.");
         (u "脚注の文です。", u "The footnote text.")]
  /\ EC.extract_pairs_from_file doc_label_colon =
     Ok [(u "本文です。", u "The body text.")].
Proof. repeat split; vm_compute; reflexivity. Qed.

(** When a 注： section follows a Notes header directly, the first
    substitution cuts the text inside the header line, and the header
    line itself is left; it makes no pair. *)
Lemma notes_header_line_left :
  EC.remove_notes doc_notes_then_label = body ++ [LF; LF] ++ u "Notes:"
  /\ EC.extract_pairs_from_file doc_notes_then_label =
     Ok [(u "本文です。", u "The body text.")].
Proof. split; vm_compute; reflexivity. Qed.

(* ================================================================== *)
(** ** Block segmentation *)
(* ================================================================== *)

(** *** [re.split] on the separator pattern *)

Lemma split_from_skip (r : regex) (n : nat) (s : str) :
  split_from r n s = split_from r 0 (skipn n s).
Proof.
  revert n. induction s as [|c s IH]; intros [|n]; try reflexivity.
  cbn [split_from skipn]. apply IH.
Qed.

Lemma split_from_nonempty (r : regex) (n : nat) (s : str) :
  split_from r n s <> [].
Proof.
  revert n. induction s as [|c s IH]; intro n; cbn [split_from];
    [discriminate|].
  destruct n as [|n]; [|apply IH].
  destruct (match_len r (c :: s)) as [[|k]|]; try discriminate;
    destruct (split_from r 0 s); discriminate.
Qed.

Lemma re_split_no_match (r : regex) (c : Z) (s : str) :
  match_at r (c :: s) = None ->
  re_split r (c :: s) = Spec.prepend [c] (re_split r s).
Proof.
  intro H. unfold re_split. cbn [split_from]. unfold match_len. rewrite H.
  pose proof (@split_from_nonempty r 0 s) as N.
  destruct (split_from r 0 s); [contradiction | reflexivity].
Qed.

(** [\n\n+] matches at two newlines and takes all that follow. *)
Lemma blank_match_at (s : str) :
  match_at EC.blank_pattern s =
  match s with
  | c :: d :: s' =>
      if (LF =? c)%Z && (LF =? d)%Z
      then Some (lstrip_by (Z.eqb LF) s') else None
  | _ => None
  end.
Proof.
  unfold match_at, EC.blank_pattern, cat, plus, chr. cbn [fold_right].
  peel_cat. cbn [run].
  destruct s as [|c [|d s']]; [reflexivity| |].
  - now destruct (LF =? c)%Z.
  - destruct (LF =? c)%Z; [|reflexivity]. destruct (LF =? d)%Z; [|reflexivity].
    cbn [andb].
    change (star (Z.eqb LF) (fun s0 => Some s0) s') with (star (Z.eqb LF) Some s').
    apply star_last.
Qed.

Lemma re_split_blank_nil : re_split EC.blank_pattern [] = [[]].
Proof. reflexivity. Qed.

Lemma re_split_blank_char (c : Z) (s : str) :
  c <> LF ->
  re_split EC.blank_pattern (c :: s) =
  Spec.prepend [c] (re_split EC.blank_pattern s).
Proof.
  intro H. apply re_split_no_match. rewrite blank_match_at.
  destruct s as [|d s]; [reflexivity|].
  destruct (Z.eqb_spec LF c) as [E|_]; [now symmetry in E | reflexivity].
Qed.

Lemma re_split_blank_newline (s : str) :
  (forall s', s <> LF :: s') ->
  re_split EC.blank_pattern (LF :: s) =
  Spec.prepend [LF] (re_split EC.blank_pattern s).
Proof.
  intro H. apply re_split_no_match. rewrite blank_match_at.
  destruct s as [|d s]; [reflexivity|].
  destruct (Z.eqb_spec LF d) as [E|_];
    [subst d; now destruct (H s) | now rewrite andb_false_r].
Qed.

Lemma re_split_blank_run (s : str) :
  re_split EC.blank_pattern (LF :: LF :: s) =
  [] :: re_split EC.blank_pattern (lstrip_by (Z.eqb LF) s).
Proof.
  unfold re_split. cbn [split_from]. unfold match_len.
  rewrite blank_match_at. cbn [andb]. rewrite Z.eqb_refl. cbn [andb].
  pose proof (lstrip_by_length (Z.eqb LF) s) as L.
  unfold len. cbn [List.length].
  replace (S (S (List.length s)) - List.length (lstrip_by (Z.eqb LF) s))
    with (S (S (List.length s - List.length (lstrip_by (Z.eqb LF) s)))) by lia.
  cbn [split_from].
  now rewrite split_from_skip, lstrip_by_skipn.
Qed.

Lemma prepend_app (x y : str) (ps : list str) :
  ps <> [] -> Spec.prepend x (Spec.prepend y ps) = Spec.prepend (x ++ y) ps.
Proof.
  destruct ps as [|p ps]; [contradiction|]. intros _. cbn [Spec.prepend].
  now rewrite app_assoc.
Qed.

Lemma re_split_nonempty (r : regex) (s : str) : re_split r s <> [].
Proof. apply split_from_nonempty. Qed.

(** A stretch without newline goes to the piece under the cursor. *)
Lemma re_split_blank_line (l s : str) :
  (forall c, In c l -> c <> LF) ->
  re_split EC.blank_pattern (l ++ s) =
  Spec.prepend l (re_split EC.blank_pattern s).
Proof.
  intro H. induction l as [|c l IH]; cbn [app].
  - pose proof (re_split_nonempty EC.blank_pattern s) as N.
    destruct (re_split EC.blank_pattern s); [contradiction | reflexivity].
  - rewrite re_split_blank_char by (apply H; now left).
    rewrite IH by (intros x Hx; apply H; now right).
    apply prepend_app, re_split_nonempty.
Qed.

(** *** Lines *)

Lemma split_nonempty (sep : Z) (s : str) : split sep s <> [].
Proof.
  induction s as [|c s IH]; cbn [split]; [discriminate|].
  destruct (c =? sep)%Z; [discriminate|].
  destruct (split sep s); discriminate.
Qed.

(** The lines of a text hold no newline, and joined by newlines they give
    the text back. *)
Lemma split_lines_clean (s : str) :
  Forall (fun l => forall c, In c l -> c <> LF) (split LF s).
Proof.
  induction s as [|c s IH]; cbn [split].
  - constructor; [intros c []|constructor].
  - destruct (Z.eqb_spec c LF) as [E|E].
    + constructor; [intros x []|exact IH].
    + destruct (split LF s) as [|p ps]; [constructor; [|constructor]|].
      * intros x [<-|[]]. exact E.
      * inversion IH as [|? ? Hp Hps]; subst. constructor; [|exact Hps].
        intros x [<-|Hx]; [exact E | now apply Hp].
Qed.

Lemma join_split (s : str) : join [LF] (split LF s) = s.
Proof.
  induction s as [|c s IH]; [reflexivity|]. cbn [split].
  pose proof (split_nonempty LF s) as N.
  destruct (Z.eqb_spec c LF) as [E|E].
  - subst c. destruct (split LF s) as [|p ps]; [contradiction|].
    cbn [join app] in *. now rewrite IH.
  - destruct (split LF s) as [|p ps]; [contradiction|].
    destruct ps as [|q ps]; cbn [join app] in *; now rewrite IH.
Qed.

Lemma split_line (l s : str) :
  (forall c, In c l -> c <> LF) -> split LF (l ++ LF :: s) = l :: split LF s.
Proof.
  intro H. induction l as [|c l IH]; cbn [app split].
  - now rewrite Z.eqb_refl.
  - destruct (Z.eqb_spec c LF) as [E|_]; [now destruct (H c (or_introl eq_refl))|].
    rewrite IH by (intros x Hx; apply H; now right). reflexivity.
Qed.

Lemma split_last_line (l : str) :
  (forall c, In c l -> c <> LF) -> split LF l = [l].
Proof.
  intro H. induction l as [|c l IH]; [reflexivity|]. cbn [split].
  destruct (Z.eqb_spec c LF) as [E|_]; [now destruct (H c (or_introl eq_refl))|].
  rewrite IH by (intros x Hx; apply H; now right). reflexivity.
Qed.

Lemma block_lines_eq (block : str) :
  EC.block_lines block = Spec.stripped_lines (split LF block).
Proof. reflexivity. Qed.

Lemma stripped_lines_cons (l : str) (ls : list str) :
  Spec.stripped_lines (l :: ls) =
  Spec.stripped_lines [l] ++ Spec.stripped_lines ls.
Proof.
  unfold Spec.stripped_lines. cbn [filter].
  destruct (negb (len (strip l) =? 0)%nat); reflexivity.
Qed.

Lemma stripped_lines_empty : Spec.stripped_lines [[]] = [].
Proof. reflexivity. Qed.

Lemma block_lines_line (l p : str) :
  (forall c, In c l -> c <> LF) ->
  EC.block_lines (l ++ [LF] ++ p) =
  Spec.stripped_lines [l] ++ EC.block_lines p.
Proof.
  intro H. rewrite !block_lines_eq. cbn [app].
  rewrite split_line by exact H. apply stripped_lines_cons.
Qed.

Lemma block_lines_last (l : str) :
  (forall c, In c l -> c <> LF) -> EC.block_lines l = Spec.stripped_lines [l].
Proof. intro H. rewrite block_lines_eq. now rewrite split_last_line. Qed.

(** *** The pieces of [re.split], line by line *)

Lemma join_cons (l y : str) (ls : list str) :
  join [LF] (l :: y :: ls) = l ++ [LF] ++ join [LF] (y :: ls).
Proof. reflexivity. Qed.

Lemma lstrip_join (ls : list str) :
  Forall Spec.newline_free ls ->
  lstrip_by (Z.eqb LF) (join [LF] ls) = join [LF] (Spec.skip_empty_lines ls).
Proof.
  induction ls as [|l ls IH]; intro H; [reflexivity|].
  inversion H as [|? ? Hl Hls]; subst.
  destruct l as [|c l].
  - destruct ls as [|y ls]; [reflexivity|].
    rewrite join_cons. cbn [app lstrip_by]. rewrite Z.eqb_refl.
    rewrite IH by exact Hls. reflexivity.
  - assert (E : (LF =? c)%Z = false).
    { apply Z.eqb_neq. intro E. apply (Hl c); [now left | now symmetry]. }
    cbn [Spec.skip_empty_lines].
    destruct ls as [|y ls]; cbn [join app lstrip_by]; now rewrite E.
Qed.

Lemma pieces_last (l : str) :
  Spec.newline_free l -> re_split EC.blank_pattern (join [LF] [l]) = [l].
Proof.
  intro H. cbn [join]. rewrite <- (app_nil_r l) at 1.
  rewrite re_split_blank_line by exact H.
  rewrite re_split_blank_nil. cbn [Spec.prepend]. now rewrite app_nil_r.
Qed.

Lemma pieces_same_block (l y : str) (ls : list str) :
  Spec.newline_free l -> (forall s', join [LF] (y :: ls) <> LF :: s') ->
  re_split EC.blank_pattern (join [LF] (l :: y :: ls)) =
  Spec.prepend (l ++ [LF]) (re_split EC.blank_pattern (join [LF] (y :: ls))).
Proof.
  intros Hl Hy. rewrite join_cons.
  rewrite re_split_blank_line by exact Hl. cbn [app].
  rewrite re_split_blank_newline by exact Hy.
  apply prepend_app, re_split_nonempty.
Qed.

Lemma pieces_new_block (l y : str) (ls : list str) :
  Spec.newline_free l -> Forall Spec.newline_free (y :: ls) ->
  re_split EC.blank_pattern (join [LF] (l :: [] :: y :: ls)) =
  l :: re_split EC.blank_pattern (join [LF] (Spec.skip_empty_lines (y :: ls))).
Proof.
  intros Hl Hy. rewrite !join_cons.
  rewrite re_split_blank_line by exact Hl. cbn [app].
  rewrite re_split_blank_run, lstrip_join by exact Hy.
  cbn [Spec.prepend]. now rewrite app_nil_r.
Qed.

(** *** Groups of lines *)

Lemma group_lines_nonempty (ls : list str) : Spec.group_lines ls <> [].
Proof.
  destruct ls as [|[|c l] ls]; cbn [Spec.group_lines]; try discriminate.
  destruct (Spec.group_lines ls); discriminate.
Qed.

Lemma nonempty_blocks_cons (b : list str) (bs ss : list (list str)) :
  Spec.nonempty_blocks bs = Spec.nonempty_blocks ss ->
  Spec.nonempty_blocks (b :: bs) = Spec.nonempty_blocks (b :: ss).
Proof.
  intro H. unfold Spec.nonempty_blocks in *. cbn [filter]. rewrite H.
  reflexivity.
Qed.

Lemma skip_empty_lines_length (ls : list str) :
  List.length (Spec.skip_empty_lines ls) <= List.length ls.
Proof.
  induction ls as [|l ls IH]; [apply le_n|].
  destruct l as [|c l]; [|apply le_n].
  destruct ls as [|y ls]; [apply le_n|].
  cbn [Spec.skip_empty_lines List.length] in *. lia.
Qed.

Lemma skip_empty_lines_nonempty (l : str) (ls : list str) :
  Spec.skip_empty_lines (l :: ls) <> [].
Proof.
  revert l. induction ls as [|y ls IH]; intro l.
  - destruct l; discriminate.
  - destruct l as [|c l]; [apply IH | discriminate].
Qed.

Lemma skip_empty_lines_clean (ls : list str) :
  Forall Spec.newline_free ls -> Forall Spec.newline_free (Spec.skip_empty_lines ls).
Proof.
  induction ls as [|l ls IH]; intro H; [exact H|].
  destruct l as [|c l]; [|exact H].
  destruct ls as [|y ls]; [exact H|].
  inversion H; subst. now apply IH.
Qed.

Lemma skip_empty_lines_groups (ls : list str) :
  Spec.nonempty_blocks
    (map Spec.stripped_lines (Spec.group_lines (Spec.skip_empty_lines ls))) =
  Spec.nonempty_blocks (map Spec.stripped_lines (Spec.group_lines ls)).
Proof.
  induction ls as [|l ls IH]; [reflexivity|].
  destruct l as [|c l]; [|reflexivity].
  destruct ls as [|y ls]; [reflexivity|].
  change (Spec.skip_empty_lines ([] :: y :: ls))
    with (Spec.skip_empty_lines (y :: ls)).
  rewrite IH. reflexivity.
Qed.

(** *** Pieces against groups *)

Local Notation "'pieces_blocks' ls" :=
  (map EC.block_lines (re_split EC.blank_pattern (join [LF] ls)))
  (at level 10, ls at level 9, only parsing).
Local Notation "'groups_blocks' ls" :=
  (map Spec.stripped_lines (Spec.group_lines ls))
  (at level 10, ls at level 9, only parsing).

Lemma heads_agree_blocks (ls : list str) :
  Spec.heads_agree ls ->
  Spec.nonempty_blocks (pieces_blocks ls) =
  Spec.nonempty_blocks (groups_blocks ls).
Proof.
  intros (b & bs & ss & -> & -> & H). now apply nonempty_blocks_cons.
Qed.

Lemma heads_agree_empty_line : Spec.heads_agree [[]].
Proof. exists [], [], [[]]. repeat split. Qed.

(** A line added before lines that start no new block. *)
Lemma same_block_step (l y : str) (ls : list str) :
  Spec.newline_free l -> (forall s', join [LF] (y :: ls) <> LF :: s') ->
  Spec.heads_agree (y :: ls) ->
  Spec.nonempty_blocks (pieces_blocks (l :: y :: ls)) =
  Spec.nonempty_blocks (groups_blocks (l :: y :: ls))
  /\ (l <> [] -> Spec.heads_agree (l :: y :: ls)).
Proof.
  intros Hl Hy (b & bs & ss & Hb & Hs & Hne).
  rewrite pieces_same_block by assumption.
  destruct (re_split EC.blank_pattern (join [LF] (y :: ls))) as [|p ps] eqn:Ep;
    [discriminate|].
  cbn [map] in Hb. injection Hb as Hp Hps.
  cbn [Spec.prepend map]. rewrite <- app_assoc.
  rewrite block_lines_line by exact Hl. rewrite Hp, Hps.
  destruct l as [|c l].
  - change (Spec.stripped_lines [[]] ++ b) with b.
    split; [|intro N; now destruct N].
    change (groups_blocks ([] :: y :: ls)) with ([] :: groups_blocks (y :: ls)).
    rewrite Hs. unfold Spec.nonempty_blocks at 2. cbn [filter List.length Nat.eqb negb].
    now apply nonempty_blocks_cons.
  - destruct (Spec.group_lines (y :: ls)) as [|g gs] eqn:Eg;
      [now destruct (group_lines_nonempty (y :: ls))|].
    cbn [map] in Hs. injection Hs as Hg Hgs.
    match goal with
    | |- _ = Spec.nonempty_blocks ?t /\ _ =>
        assert (E : t = (Spec.stripped_lines [c :: l] ++ b) :: ss)
    end.
    { change (Spec.group_lines ((c :: l) :: y :: ls))
        with (match Spec.group_lines (y :: ls) with
              | g0 :: gs0 => ((c :: l) :: g0) :: gs0
              | [] => [[c :: l]]
              end).
      rewrite Eg. cbn [map].
      rewrite stripped_lines_cons, Hg, Hgs. reflexivity. }
    rewrite E. split.
    + now apply nonempty_blocks_cons.
    + intros _. exists (Spec.stripped_lines [c :: l] ++ b), bs, ss.
      rewrite pieces_same_block by assumption. rewrite Ep.
      cbn [Spec.prepend map]. rewrite <- app_assoc.
      rewrite block_lines_line by exact Hl. rewrite Hp, Hps.
      repeat split; [exact E | exact Hne].
Qed.

(** A line added before an empty line that separates. *)
Lemma new_block_step (l y : str) (ls : list str) :
  Spec.newline_free l -> Forall Spec.newline_free (y :: ls) ->
  Spec.nonempty_blocks (pieces_blocks (Spec.skip_empty_lines (y :: ls))) =
  Spec.nonempty_blocks (groups_blocks (Spec.skip_empty_lines (y :: ls))) ->
  Spec.nonempty_blocks (pieces_blocks (l :: [] :: y :: ls)) =
  Spec.nonempty_blocks (groups_blocks (l :: [] :: y :: ls))
  /\ (l <> [] -> Spec.heads_agree (l :: [] :: y :: ls)).
Proof.
  intros Hl Hy IH. rewrite skip_empty_lines_groups in IH.
  assert (Hp : pieces_blocks (l :: [] :: y :: ls) =
               Spec.stripped_lines [l]
               :: pieces_blocks (Spec.skip_empty_lines (y :: ls))).
  { rewrite pieces_new_block by assumption. cbn [map].
    now rewrite block_lines_last. }
  destruct l as [|c l].
  - split; [|intro N; now destruct N].
    rewrite Hp. exact IH.
  - assert (Hg : groups_blocks ((c :: l) :: [] :: y :: ls) =
                 Spec.stripped_lines [c :: l] :: groups_blocks (y :: ls))
      by reflexivity.
    split.
    + rewrite Hp.
      refine (eq_trans (@nonempty_blocks_cons _ _ _ IH) _). reflexivity.
    + intros _. eexists _, _, _. split; [exact Hp|]. split; [exact Hg|].
      exact IH.
Qed.

Lemma join_starts_with_char (c : Z) (y : str) (ls : list str) (s' : str) :
  c <> LF -> join [LF] ((c :: y) :: ls) <> LF :: s'.
Proof.
  intros Hc E. destruct ls; cbn [join app] in E; injection E as E _;
    contradiction.
Qed.

(** The non-empty blocks of the pieces are the non-empty groups of the
    lines. *)
Lemma pieces_groups (n : nat) (ls : list str) :
  List.length ls <= n -> ls <> [] -> Forall Spec.newline_free ls ->
  Spec.nonempty_blocks (pieces_blocks ls) =
  Spec.nonempty_blocks (groups_blocks ls)
  /\ (ls = [[]] \/ (exists c l ls', ls = (c :: l) :: ls') -> Spec.heads_agree ls).
Proof.
  revert ls. induction n as [|n IH]; intros ls Hn Hne Hclean.
  { destruct ls; [contradiction | cbn [List.length] in Hn; lia]. }
  destruct ls as [|l [|y rest]]; [contradiction| |].
  - (* one line *)
    inversion Hclean as [|? ? Hl _]; subst.
    assert (H : l = [] \/ Spec.heads_agree [l]).
    { destruct l as [|c l]; [now left|]. right.
      exists (Spec.stripped_lines [c :: l]), [], [].
      rewrite pieces_last by exact Hl. cbn [map].
      rewrite block_lines_last by exact Hl. repeat split. }
    destruct H as [-> | H].
    + split; [reflexivity | intros _; apply heads_agree_empty_line].
    + split; [now apply heads_agree_blocks | intros _; exact H].
  - inversion Hclean as [|? ? Hl Hrest]; subst.
    cbn [List.length] in Hn.
    assert (Hstep :
      Spec.nonempty_blocks (pieces_blocks (l :: y :: rest)) =
      Spec.nonempty_blocks (groups_blocks (l :: y :: rest))
      /\ (l <> [] -> Spec.heads_agree (l :: y :: rest))).
    { destruct y as [|c y].
      - destruct rest as [|z rest].
        + (* the text ends with a newline *)
          apply same_block_step; [exact Hl | discriminate |].
          apply heads_agree_empty_line.
        + (* an empty line between two lines *)
          inversion Hrest as [|? ? _ Hrest']; subst.
          apply new_block_step; [exact Hl | exact Hrest' |].
          apply IH.
          * pose proof (skip_empty_lines_length (z :: rest)) as L.
            cbn [List.length] in *. lia.
          * apply skip_empty_lines_nonempty.
          * now apply skip_empty_lines_clean.
      - (* the next line is not empty *)
        inversion Hrest as [|? ? Hy _]; subst.
        apply same_block_step; [exact Hl | |].
        + intro s'. apply join_starts_with_char. apply Hy. now left.
        + apply IH; [cbn [List.length]; lia | discriminate | exact Hrest |].
          right. now exists c, y, rest. }
    destruct Hstep as [H1 H2]. split; [exact H1|].
    intros [E|(c & l' & ls' & E)]; [discriminate|].
    apply H2. injection E as -> _. discriminate.
Qed.

(** *** Stripped lines *)

Lemma lstrip_by_idem (p : Z -> bool) (s : str) :
  lstrip_by p (lstrip_by p s) = lstrip_by p s.
Proof.
  induction s as [|c s IH]; [reflexivity|]. cbn [lstrip_by].
  destruct (p c) eqn:E; [exact IH|]. cbn [lstrip_by]. now rewrite E.
Qed.

Lemma lstrip_by_keeps_last (p : Z -> bool) (s : str) (c : Z) :
  p c = false -> lstrip_by p (s ++ [c]) = lstrip_by p s ++ [c].
Proof.
  intro Hc. induction s as [|x s IH]; cbn [app lstrip_by].
  - now rewrite Hc.
  - destruct (p x); [exact IH | reflexivity].
Qed.

Lemma rstrip_by_keeps_first (p : Z -> bool) (s : str) (c : Z) :
  p c = false -> rstrip_by p (c :: s) = c :: rstrip_by p s.
Proof.
  intro Hc. unfold rstrip_by. cbn [rev].
  rewrite lstrip_by_keeps_last by exact Hc.
  rewrite rev_app_distr. reflexivity.
Qed.

Lemma strip_by_idem (p : Z -> bool) (s : str) :
  strip_by p (strip_by p s) = strip_by p s.
Proof.
  unfold strip_by.
  assert (H : lstrip_by p (rstrip_by p (lstrip_by p s)) =
              rstrip_by p (lstrip_by p s)).
  { induction s as [|c s IH]; [reflexivity|]. cbn [lstrip_by].
    destruct (p c) eqn:E; [exact IH|].
    rewrite rstrip_by_keeps_first by exact E. cbn [lstrip_by]. now rewrite E. }
  rewrite H. unfold rstrip_by. rewrite rev_involutive, lstrip_by_idem.
  reflexivity.
Qed.

Lemma block_lines_stripped (block : str) :
  Forall (fun line => line <> [] /\ strip line = line) (EC.block_lines block).
Proof.
  unfold EC.block_lines. apply Forall_forall. intros line Hin.
  apply in_map_iff in Hin. destruct Hin as (l & <- & Hl).
  apply filter_In in Hl. destruct Hl as [_ Hl]. split.
  - intro E. rewrite E in Hl. discriminate.
  - apply strip_by_idem.
Qed.

(** *** main.py: the separator pattern on a text without carriage return *)

Lemma main_blank_match_at (s : str) :
  (forall c, In c s -> c <> CR) ->
  match_at Main.blank_pattern s = match_at EC.blank_pattern s.
Proof.
  intro H. rewrite blank_match_at.
  unfold match_at, Main.blank_pattern, cat, plus, chr. cbn [fold_right].
  peel_cat. cbn [run].
  destruct s as [|c [|d s']]; [reflexivity| |].
  - assert (Ec : (CR =? c)%Z = false)
      by (apply Z.eqb_neq; intro E; apply (H c); [now left | now symmetry]).
    rewrite Ec. now destruct (LF =? c)%Z.
  - assert (Ec : (CR =? c)%Z = false)
      by (apply Z.eqb_neq; intro E; apply (H c); [now left | now symmetry]).
    assert (Ed : (CR =? d)%Z = false)
      by (apply Z.eqb_neq; intro E; apply (H d);
          [right; now left | now symmetry]).
    rewrite Ec. destruct (LF =? c)%Z; [|reflexivity]. rewrite Ed.
    destruct (LF =? d)%Z; [|reflexivity]. cbn [andb].
    change (star (Z.eqb LF) (fun s0 => Some s0) s') with (star (Z.eqb LF) Some s').
    now rewrite star_last.
Qed.

Lemma split_from_same_matches (r r' : regex) (n : nat) (s : str) :
  (forall pre t, s = pre ++ t -> match_at r t = match_at r' t) ->
  split_from r n s = split_from r' n s.
Proof.
  revert n. induction s as [|c s IH]; intros n H; [reflexivity|].
  assert (Hs : forall pre t, s = pre ++ t -> match_at r t = match_at r' t).
  { intros pre t E. apply (H (c :: pre)). now rewrite E. }
  cbn [split_from]. destruct n as [|n]; [|now apply IH].
  unfold match_len. rewrite (H [] (c :: s) eq_refl).
  destruct (match_at r' (c :: s)) as [rest|]; [|now rewrite IH].
  destruct (len (c :: s) - len rest); now rewrite IH.
Qed.

Lemma main_segment_eq (content : str) :
  (forall c, In c content -> c <> CR) ->
  Main.segment content = EC.segment content.
Proof.
  intro H. unfold Main.segment, EC.segment, re_split.
  rewrite (@split_from_same_matches Main.blank_pattern EC.blank_pattern);
    [reflexivity|].
  intros pre t E. apply main_blank_match_at.
  intros c Hc. apply H. rewrite E. apply in_or_app. now right.
Qed.

(** C5, as the code has it.  The Blocks that have a line are the groups
    of the lines of the text cut at every empty line (that is, the text is
    split at the runs of two or more consecutive newline characters; a
    line of whitespace only cuts nothing), in order, each with its lines
    stripped and its blank lines dropped.  Every line of every Block is
    non-empty and stripped.  On a text without carriage return main.py
    segments as extract_corpus.py does. *)
Theorem segment_at_empty_lines :
  forall content : str,
    Spec.nonempty_blocks (EC.segment content) =
    Spec.blocks_by_empty_lines content
    /\ Forall (Forall (fun line => line <> [] /\ strip line = line))
         (EC.segment content)
    /\ ((forall c, In c content -> c <> CR) ->
        Main.segment content = EC.segment content).
Proof.
  intro content. split; [|split].
  - unfold EC.segment, Spec.blocks_by_empty_lines.
    rewrite <- (join_split content) at 1.
    apply (@pieces_groups (List.length (split LF content))).
    + apply le_n.
    + apply split_nonempty.
    + apply split_lines_clean.
  - unfold EC.segment. apply Forall_forall. intros block Hin.
    apply in_map_iff in Hin. destruct Hin as (piece & <- & _).
    apply block_lines_stripped.
  - apply main_segment_eq.
Qed.

Lemma segment_at_empty_lines_witness :
  Main.segment doc_empty_line =
  [[u "あいう"; u "abc"]; [u "かきく"; u "def"]].
Proof.
  refine (eq_trans (proj2 (proj2 (segment_at_empty_lines doc_empty_line)) _) _).
  - apply Forall_forall. vm_compute. repeat constructor; discriminate.
  - vm_compute. reflexivity.
Defined.

(** C5 as stated fails: the two halves of this text are separated by a
    single empty line, and they are two Blocks (and give two pairs); a
    line of one space instead leaves the four lines in one Block. *)
Lemma single_empty_line_splits :
  split LF doc_empty_line = [u "あいう"; u "abc"; []; u "かきく"; u "def"]
  /\ EC.segment doc_empty_line = [[u "あいう"; u "abc"]; [u "かきく"; u "def"]]
  /\ ~ Spec.same_block (EC.segment doc_empty_line) (u "abc") (u "かきく")
  /\ EC.extract_pairs_from_file doc_empty_line =
     Ok [(u "あいう", u "abc"); (u "かきく", u "def")]
  /\ EC.segment doc_space_line =
     [[u "あいう"; u "abc"; u "かきく"; u "def"]].
Proof.
  split; [vm_compute; reflexivity|].
  split; [vm_compute; reflexivity|].
  split; [|split; vm_compute; reflexivity].
  intros (block & Hin & Hx & Hy). vm_compute in Hin, Hx, Hy.
  destruct Hin as [<-|[<-|[]]].
  - destruct Hy as [Hy|[Hy|[]]]; discriminate.
  - destruct Hx as [Hx|[Hx|[]]]; discriminate.
Qed.

(* ================================================================== *)
(** ** Further properties of the extractors *)
(* ================================================================== *)

(** *** Characters: what the string operations keep *)

Lemma lstrip_by_chars (p : Z -> bool) (s : str) (c : Z) :
  In c (lstrip_by p s) -> In c s.
Proof.
  induction s as [|x s IH]; [intros []|]. cbn [lstrip_by].
  destruct (p x); [intro H; right; now apply IH | exact (fun H => H)].
Qed.

Lemma strip_by_chars (p : Z -> bool) (s : str) (c : Z) :
  In c (strip_by p s) -> In c s.
Proof.
  unfold strip_by, rstrip_by. intro H. apply in_rev in H.
  apply lstrip_by_chars in H. apply in_rev in H.
  now apply lstrip_by_chars in H.
Qed.

Lemma strip_by_length (p : Z -> bool) (s : str) :
  List.length (strip_by p s) <= List.length s.
Proof.
  unfold strip_by, rstrip_by. rewrite length_rev.
  etransitivity; [apply lstrip_by_length|]. rewrite length_rev.
  apply lstrip_by_length.
Qed.

Lemma sub_from_chars (r : regex) (repl : str) (n : nat) (s : str) (c : Z) :
  In c (sub_from r repl n s) -> In c repl \/ In c s.
Proof.
  revert n. induction s as [|x s IH]; intro n; [intros []|].
  cbn [sub_from]. destruct n as [|n].
  - destruct (match_len r (x :: s)) as [[|k]|].
    + intros [<-|H]; [right; now left|].
      destruct (IH _ H); [now left | right; now right].
    + intro H. apply in_app_or in H. destruct H as [H|H]; [now left|].
      destruct (IH _ H); [now left | right; now right].
    + intros [<-|H]; [right; now left|].
      destruct (IH _ H); [now left | right; now right].
  - intro H. destruct (IH _ H); [now left | right; now right].
Qed.

Lemma sub_from_delete_length (r : regex) (n : nat) (s : str) :
  List.length (sub_from r [] n s) <= List.length s.
Proof.
  revert n. induction s as [|x s IH]; intro n; [apply le_n|].
  cbn [sub_from]. destruct n as [|n].
  - destruct (match_len r (x :: s)) as [[|k]|]; cbn [app List.length].
    + apply le_n_S, IH.
    + etransitivity; [apply IH | apply Nat.le_succ_diag_r].
    + apply le_n_S, IH.
  - cbn [List.length]. etransitivity; [apply IH | apply Nat.le_succ_diag_r].
Qed.

Lemma split_from_chars (r : regex) (n : nat) (s piece : str) (c : Z) :
  In piece (split_from r n s) -> In c piece -> In c s.
Proof.
  revert n piece. induction s as [|x s IH]; intros n piece.
  - intros [<-|[]] [].
  - cbn [split_from]. destruct n as [|n].
    + destruct (match_len r (x :: s)) as [[|k]|].
      * destruct (split_from r 0 s) as [|p ps] eqn:E.
        -- intros [<-|[]] [<-|[]]. now left.
        -- intros [<-|H] Hc.
           ++ destruct Hc as [<-|Hc]; [now left|]. right.
              apply (IH 0 p); [rewrite E; now left | exact Hc].
           ++ right. apply (IH 0 piece); [rewrite E; now right | exact Hc].
      * intros [<-|H] Hc; [destruct Hc|]. right. now apply (IH k piece).
      * destruct (split_from r 0 s) as [|p ps] eqn:E.
        -- intros [<-|[]] [<-|[]]. now left.
        -- intros [<-|H] Hc.
           ++ destruct Hc as [<-|Hc]; [now left|]. right.
              apply (IH 0 p); [rewrite E; now left | exact Hc].
           ++ right. apply (IH 0 piece); [rewrite E; now right | exact Hc].
    + intros H Hc. right. now apply (IH n piece).
Qed.

Lemma split_chars (sep : Z) (s piece : str) (c : Z) :
  In piece (split sep s) -> In c piece -> In c s.
Proof.
  revert piece. induction s as [|x s IH]; intro piece.
  - intros [<-|[]] [].
  - cbn [split]. destruct (x =? sep)%Z.
    + intros [<-|H] Hc; [destruct Hc|]. right. now apply (IH piece).
    + destruct (split sep s) as [|p ps] eqn:E.
      * intros [<-|[]] [<-|[]]. now left.
      * intros [<-|H] Hc.
        -- destruct Hc as [<-|Hc]; [now left|]. right.
           apply (IH p); [now left | exact Hc].
        -- right. apply (IH piece); [now right | exact Hc].
Qed.

Lemma prefix_of_chars (p s : str) (c : Z) :
  Spec.prefix_of p s -> In c p -> In c s.
Proof. intros [t ->] H. apply in_or_app. now left. Qed.

(** *** [is_japanese] and [clean_text] *)

(** X1. [is_japanese] holds of a text exactly when one of its characters
    is in the Hiragana, Katakana or CJK Unified Ideographs block; it holds
    of a concatenation when it holds of a part. *)
Theorem is_japanese_by_character :
  forall s t : str,
    (EC.is_japanese s = true <-> Spec.has_japanese s)
    /\ (EC.is_japanese s = false <-> Spec.no_japanese s)
    /\ EC.is_japanese (s ++ t) = EC.is_japanese s || EC.is_japanese t
    /\ Main.is_japanese s = EC.is_japanese s.
Proof.
  intros s t.
  assert (Hhas : EC.is_japanese s = true <-> Spec.has_japanese s).
  { split; [apply is_japanese_has|]. intros (c & Hc & Hj).
    rewrite is_japanese_existsb. apply existsb_exists. exists c.
    split; [exact Hc | now apply japanese_char_script]. }
  split; [exact Hhas|]. split; [|split].
  - split; [apply not_japanese_no|]. intro H.
    destruct (EC.is_japanese s) eqn:E; [|reflexivity].
    destruct (proj1 Hhas eq_refl) as (c & Hc & Hj). now destruct (H c Hc).
  - rewrite !is_japanese_existsb. apply existsb_app.
  - reflexivity.
Qed.

Lemma entity_needs_ampersand (c : Z) (s : str) :
  c <> 0x26%Z -> match_len EC.entity_pattern (c :: s) = None.
Proof.
  intro H. unfold match_len, match_at, EC.entity_pattern.
  change (u "&#") with [0x26; 0x23]%Z. unfold lit, cat.
  cbn [map fold_right]. peel_cat. unfold chr at 1. cbn [run].
  destruct (Z.eqb_spec 0x26 c) as [E|_]; [now symmetry in E | reflexivity].
Qed.

Lemma re_sub_entity_no_ampersand (s : str) :
  ~ In 0x26%Z s -> re_sub EC.entity_pattern [] s = s.
Proof.
  unfold re_sub. induction s as [|c s IH]; intro H; [reflexivity|].
  cbn [sub_from]. rewrite entity_needs_ampersand.
  - rewrite IH; [reflexivity|]. intro Hc. apply H. now right.
  - intro E. apply H. left. now symmetry.
Qed.

Lemma clean_text_chars (text : str) (c : Z) :
  In c (EC.clean_text text) -> In c text.
Proof.
  unfold EC.clean_text. intro Hc. apply strip_by_chars in Hc.
  apply sub_from_chars in Hc. now destruct Hc as [[]|Hc].
Qed.

(** X2. [clean_text] only deletes: its result is stripped, is no longer
    than the text, and has no character that the text has not; on a text
    without ampersand it is [strip]. *)
Theorem clean_text_only_deletes :
  forall text : str,
    strip (EC.clean_text text) = EC.clean_text text
    /\ len (EC.clean_text text) <= len text
    /\ (forall c, In c (EC.clean_text text) -> In c text)
    /\ (~ In 0x26%Z text -> EC.clean_text text = strip text).
Proof.
  intro text. unfold EC.clean_text. split; [apply strip_by_idem|].
  split; [|split].
  - unfold len, strip. etransitivity; [apply strip_by_length|].
    apply sub_from_delete_length.
  - apply clean_text_chars.
  - intro H. now rewrite re_sub_entity_no_ampersand.
Qed.

Lemma clean_text_only_deletes_witness :
  EC.clean_text (u "  I read that book. ") = strip (u "  I read that book. ").
Proof.
  apply (proj2 (proj2 (proj2 (clean_text_only_deletes
                                (u "  I read that book. "))))).
  intro H. vm_compute in H.
  repeat (destruct H as [H|H]; [discriminate|]). exact H.
Defined.

(** *** Whole files *)

Lemma for_each_blocks (A B : Type) (f : A -> result (list B)) (l : list A) :
  (forall x, exists ps, f x = Ok ps) ->
  forall acc,
  exists pss,
    Forall2 (fun x ps => f x = Ok ps) l pss
    /\ for_each (fun x pairs => r <- f x ;; Ok (pairs ++ r)) l acc =
       Ok (acc ++ List.concat pss).
Proof.
  intro Hf. induction l as [|x l IH]; intro acc.
  - exists []. split; [constructor | cbn; now rewrite app_nil_r].
  - destruct (Hf x) as [ps Hps].
    destruct (IH (acc ++ ps)) as (pss & HF & Hrun).
    exists (ps :: pss). split; [now constructor|].
    cbn [for_each]. rewrite Hps. cbn [bind]. rewrite Hrun.
    cbn [List.concat]. now rewrite app_assoc.
Qed.

Lemma for_each_appends (A B : Type) (body : A -> list B -> result (list B))
      (g : A -> list B) (l : list A) :
  (forall x acc, body x acc = Ok (acc ++ g x)) ->
  forall acc, for_each body l acc = Ok (acc ++ List.concat (map g l)).
Proof.
  intro Hb. induction l as [|x l IH]; intro acc; cbn [for_each map List.concat].
  - now rewrite app_nil_r.
  - rewrite Hb. cbn [bind]. rewrite IH. now rewrite app_assoc.
Qed.

Lemma file_pairs_blocks (content : str) :
  exists pss,
    Forall2 (fun lines ps => EC.extract_pairs_from_block lines = Ok ps)
      (EC.segment (EC.remove_notes (EC.normalize_newlines content))) pss
    /\ EC.extract_pairs_from_file content = Ok (List.concat pss).
Proof.
  unfold EC.extract_pairs_from_file.
  destruct (@for_each_blocks _ _ EC.extract_pairs_from_block
              (EC.segment (EC.remove_notes (EC.normalize_newlines content))))
    with (acc := @nil EC.pair) as (pss & HF & Hrun).
  - intro lines.
    destruct (extract_pairs_from_block_total lines) as (ps & Hps & _).
    now exists ps.
  - exists pss. split; [exact HF | exact Hrun].
Qed.

Lemma main_file_pairs_blocks (content : str) :
  exists pss,
    Forall2 (fun lines ps =>
               forall acc, Main.pairs_of_block lines acc = Ok (acc ++ ps))
      (Main.segment content) pss
    /\ Main.extract_pairs_from_file content = Ok (List.concat pss).
Proof.
  unfold Main.extract_pairs_from_file.
  exists (map (fun lines =>
                 Spec.positional_pairs
                   (Spec.source_lines Main.should_skip_line lines)
                   (Spec.target_lines Main.should_skip_line lines)
                   (Nat.min
                      (List.length (Spec.source_lines Main.should_skip_line lines))
                      (List.length (Spec.target_lines Main.should_skip_line lines))))
              (Main.segment content)).
  split.
  - induction (Main.segment content) as [|lines l IH]; constructor;
      [intro acc; apply pairs_of_block_eq | exact IH].
  - refine (eq_trans (for_each_appends _ _ _ _ _) _);
      [intros x acc; apply pairs_of_block_eq | reflexivity].
Qed.

(** X3. The pairs of a file are the pairs of its blocks, block after
    block: [extract_pairs_from_file] returns the concatenation, in the
    order of the blocks, of what [extract_pairs_from_block] returns on
    each block of the text left after newline normalisation and footnote
    removal; main.py does so on the blocks of the text as read. *)
Theorem file_pairs_by_blocks :
  forall content : str,
    (exists pss,
       Forall2 (fun lines ps => EC.extract_pairs_from_block lines = Ok ps)
         (EC.segment (EC.remove_notes (EC.normalize_newlines content))) pss
       /\ EC.extract_pairs_from_file content = Ok (List.concat pss))
    /\
    (exists pss,
       Forall2 (fun lines ps =>
                  forall acc, Main.pairs_of_block lines acc = Ok (acc ++ ps))
         (Main.segment content) pss
       /\ Main.extract_pairs_from_file content = Ok (List.concat pss)).
Proof.
  intro content. split;
    [apply file_pairs_blocks | apply main_file_pairs_blocks].
Qed.

Lemma Forall2_In_r (A B : Type) (R : A -> B -> Prop) (l : list A) (l' : list B)
      (y : B) :
  Forall2 R l l' -> In y l' -> exists x, In x l /\ R x y.
Proof.
  induction 1 as [|x y' l l' Hxy _ IH]; [intros []|].
  intros [<-|H].
  - exists x. split; [now left | exact Hxy].
  - destruct (IH H) as (x' & Hx' & HR). exists x'. split; [now right | exact HR].
Qed.

(** *** The sides of the pairs *)

Lemma cleaned_lines_from (skip : str -> bool) (lines : list str) (x : str) :
  In x (Spec.cleaned_lines skip lines) ->
  x <> [] /\ exists line, In line lines /\ x = EC.clean_text line.
Proof.
  unfold Spec.cleaned_lines. intro H. apply filter_In in H.
  destruct H as [H Hx]. apply in_map_iff in H.
  destruct H as (line & <- & Hl). apply filter_In in Hl. split.
  - intro E. rewrite E in Hx. discriminate.
  - exists line. split; [apply Hl | reflexivity].
Qed.

Lemma classified_line_chars (skip : str -> bool) (lines : list str) (x : str)
      (c : Z) :
  In x (Spec.source_lines skip lines) \/ In x (Spec.target_lines skip lines) ->
  In c x -> exists line, In line lines /\ In c line.
Proof.
  intros H Hc.
  assert (Hx : In x (Spec.cleaned_lines skip lines))
    by (destruct H as [H|H]; apply filter_In in H; apply H).
  apply cleaned_lines_from in Hx. destruct Hx as (_ & line & Hl & ->).
  exists line. split; [exact Hl|].
  now apply clean_text_chars.
Qed.

(** The sides of the pairs of a block: long enough, and made of
    characters of the lines of the block, but for the semicolons and
    spaces of the fan-in tier. *)
Lemma block_pair_sides (lines : list str) (ps : list (str * str)) (s t : str) :
  EC.extract_pairs_from_block lines = Ok ps -> In (s, t) ps ->
  3 <= len s /\ 3 <= len t
  /\ forall c, In c s \/ In c t ->
       c = 0x3B%Z \/ c = SPACE \/ exists line, In line lines /\ In c line.
Proof.
  intros Hrun Hin. rewrite extract_pairs_from_block_eq in Hrun.
  set (ja := Spec.source_lines EC.should_skip_line lines) in *.
  set (en := Spec.target_lines EC.should_skip_line lines) in *.
  assert (Hpos : In (s, t) (Spec.positional_pairs ja en
                   (Nat.min (List.length ja) (List.length en))) ->
                 3 <= len s /\ 3 <= len t
                 /\ forall c, In c s \/ In c t ->
                      c = 0x3B%Z \/ c = SPACE
                      \/ exists line, In line lines /\ In c line).
  { intro H. pose proof (@positional_pairs_In _ _ _ _ H) as (i & _ & _ & L1 & L2).
    apply positional_pairs_members in H; [|lia]. destruct H as [Hs Ht].
    split; [exact L1|]. split; [exact L2|].
    intros c [Hc|Hc]; right; right.
    - apply (@classified_line_chars EC.should_skip_line lines s c);
        [now left | exact Hc].
    - apply (@classified_line_chars EC.should_skip_line lines t c);
        [now right | exact Hc]. }
  destruct (List.length ja =? List.length en)%nat.
  { inversion Hrun; subst ps. now apply Hpos. }
  destruct ((List.length ja =? 1)%nat && (1 <? List.length en)%nat) eqn:F.
  - apply andb_prop in F. destruct F as [F _]. apply Nat.eqb_eq in F.
    cbv zeta in Hrun. rewrite re_sub_semicolons in Hrun.
    change (u " ") with [SPACE] in Hrun.
    destruct (EC.long_enough _ _) eqn:L; inversion Hrun; subst ps;
      [|destruct Hin].
    destruct Hin as [Hin|[]]. inversion Hin; subst s t.
    unfold EC.long_enough in L. apply andb_prop in L. destruct L as [L1 L2].
    apply Nat.leb_le in L1, L2.
    split; [exact L1|]. split; [exact L2|].
    intros c [Hc|Hc].
    + right. right.
      apply (@classified_line_chars EC.should_skip_line lines (nth 0 ja []) c);
        [left; apply nth_In; fold ja; lia | exact Hc].
    + apply normalize_semicolons_chars in Hc.
      destruct Hc as [Hc|[Hc|Hc]]; [now left | right; now left|].
      apply join_chars in Hc. destruct Hc as [[Hc|[]]|(x & Hx & Hc)].
      * right. left. now symmetry.
      * right. right.
        apply (@classified_line_chars EC.should_skip_line lines x c);
          [now right | exact Hc].
  - destruct ((0 <? List.length ja)%nat && (0 <? List.length en)%nat);
      inversion Hrun; subst ps; [now apply Hpos | destruct Hin].
Qed.

Lemma main_block_pair_sides (lines : list str) (acc ps : list (str * str))
      (s t : str) :
  Main.pairs_of_block lines acc = Ok (acc ++ ps) -> In (s, t) ps ->
  3 <= len s /\ 3 <= len t
  /\ forall c, In c s \/ In c t -> exists line, In line lines /\ In c line.
Proof.
  intros Hrun Hin. rewrite pairs_of_block_eq in Hrun.
  inversion Hrun as [Happ]. apply app_inv_head in Happ. subst ps.
  pose proof (@positional_pairs_In _ _ _ _ Hin) as (i & _ & _ & L1 & L2).
  apply positional_pairs_members in Hin; [|lia]. destruct Hin as [Hs Ht].
  split; [exact L1|]. split; [exact L2|].
  intros c [Hc|Hc].
  - apply (@classified_line_chars Main.should_skip_line lines s c);
      [now left | exact Hc].
  - apply (@classified_line_chars Main.should_skip_line lines t c);
      [now right | exact Hc].
Qed.

Lemma block_pair_scripts (lines : list str) (ps : list (str * str)) (s t : str) :
  EC.extract_pairs_from_block lines = Ok ps -> In (s, t) ps ->
  Spec.has_japanese s /\ Spec.no_japanese t.
Proof.
  intros Hrun Hin.
  destruct (@block_pair_sides lines _ _ _ Hrun Hin) as (_ & _ & Hchars).
  rewrite extract_pairs_from_block_eq in Hrun.
  set (ja := Spec.source_lines EC.should_skip_line lines) in *.
  set (en := Spec.target_lines EC.should_skip_line lines) in *.
  assert (Hpos : In (s, t) (Spec.positional_pairs ja en
                   (Nat.min (List.length ja) (List.length en))) ->
                 Spec.has_japanese s /\ Spec.no_japanese t).
  { intro H. apply positional_pairs_members in H; [|lia].
    destruct H as [Hs Ht]. split.
    - apply (@source_lines_japanese _ _ _ Hs).
    - apply (@target_lines_not_japanese _ _ _ Ht). }
  destruct (List.length ja =? List.length en)%nat.
  { inversion Hrun; subst ps. now apply Hpos. }
  destruct ((List.length ja =? 1)%nat && (1 <? List.length en)%nat) eqn:F.
  - apply andb_prop in F. destruct F as [F _]. apply Nat.eqb_eq in F.
    cbv zeta in Hrun. rewrite re_sub_semicolons in Hrun.
    change (u " ") with [SPACE] in Hrun.
    destruct (EC.long_enough _ _); inversion Hrun; subst ps; [|destruct Hin].
    destruct Hin as [Hin|[]]. inversion Hin; subst s t. split.
    + apply (@source_lines_japanese EC.should_skip_line lines).
      apply nth_In. fold ja. lia.
    + intros c Hc Hj. apply normalize_semicolons_chars in Hc.
      destruct Hc as [Hc|[Hc|Hc]];
        [subst c; unfold Spec.japanese_script in Hj; lia
        |subst c; unfold Spec.japanese_script, SPACE in Hj; lia|].
      apply join_chars in Hc. destruct Hc as [Hc|(x & Hx & Hc)].
      * destruct Hc as [Hc|[]]. subst c.
        unfold Spec.japanese_script, SPACE in Hj. lia.
      * apply (@target_lines_not_japanese _ _ _ Hx c Hc Hj).
  - destruct ((0 <? List.length ja)%nat && (0 <? List.length en)%nat);
      inversion Hrun; subst ps; [now apply Hpos | destruct Hin].
Qed.

Lemma main_block_pair_scripts (lines : list str) (acc ps : list (str * str))
      (s t : str) :
  Main.pairs_of_block lines acc = Ok (acc ++ ps) -> In (s, t) ps ->
  Spec.has_japanese s /\ Spec.no_japanese t.
Proof.
  intros Hrun Hin. rewrite pairs_of_block_eq in Hrun.
  inversion Hrun as [Happ]. apply app_inv_head in Happ. subst ps.
  apply positional_pairs_members in Hin; [|lia].
  destruct Hin as [Hs Ht]. split.
  - apply (@source_lines_japanese _ _ _ Hs).
  - apply (@target_lines_not_japanese _ _ _ Ht).
Qed.

(** *** The characters of the lines of the blocks *)

Lemma replace_from_chars (old new : str) (n : nat) (s : str) (c : Z) :
  In c (replace_from old new n s) -> In c new \/ In c s.
Proof.
  revert n. induction s as [|x s IH]; intro n; [intros []|].
  cbn [replace_from]. destruct n as [|n].
  - destruct (startswith (x :: s) old).
    + destruct (len old).
      * intros [<-|H]; [right; now left|].
        destruct (IH _ H); [now left | right; now right].
      * intro H. apply in_app_or in H. destruct H as [H|H]; [now left|].
        destruct (IH _ H); [now left | right; now right].
    + intros [<-|H]; [right; now left|].
      destruct (IH _ H); [now left | right; now right].
  - intro H. destruct (IH _ H); [now left | right; now right].
Qed.

Lemma normalize_newlines_chars (content : str) (c : Z) :
  In c (EC.normalize_newlines content) ->
  c <> CR /\ (c = LF \/ In c content).
Proof.
  unfold EC.normalize_newlines. rewrite replace_char, in_map_iff.
  intros (x & Hx & Hin).
  destruct (Z.eqb_spec x CR) as [E|E].
  - subst c. split; [discriminate | now left].
  - subst c. split; [exact E|].
    apply replace_from_chars in Hin.
    destruct Hin as [[Hin|[]]|Hin]; [left; now symmetry | now right].
Qed.

Lemma remove_notes_prefix (content : str) :
  Spec.prefix_of (EC.remove_notes content) content.
Proof.
  unfold EC.remove_notes. eapply prefix_of_trans.
  - apply cut_prefix, notes_pattern2_to_the_end.
  - apply cut_prefix, notes_pattern1_to_the_end.
Qed.

Lemma block_lines_chars (piece line : str) (c : Z) :
  In line (EC.block_lines piece) -> In c line -> In c piece /\ c <> LF.
Proof.
  unfold EC.block_lines. intros Hl Hc.
  apply in_map_iff in Hl. destruct Hl as (l & <- & Hl).
  apply filter_In in Hl. destruct Hl as [Hl _].
  apply strip_by_chars in Hc. split.
  - now apply (@split_chars LF piece l c).
  - pose proof (split_lines_clean piece) as H.
    rewrite Forall_forall in H. now apply (H l Hl c).
Qed.

Lemma segment_chars (content : str) (lines : list str) (line : str) (c : Z) :
  In lines (EC.segment content) -> In line lines -> In c line ->
  In c content /\ c <> LF.
Proof.
  unfold EC.segment. intros H Hl Hc.
  apply in_map_iff in H. destruct H as (piece & <- & Hp).
  destruct (@block_lines_chars _ _ _ Hl Hc) as [Hin Hlf]. split; [|exact Hlf].
  now apply (@split_from_chars EC.blank_pattern 0 content piece c).
Qed.

Lemma main_segment_chars (content : str) (lines : list str) (line : str)
      (c : Z) :
  In lines (Main.segment content) -> In line lines -> In c line ->
  In c content /\ c <> LF.
Proof.
  unfold Main.segment. intros H Hl Hc.
  apply in_map_iff in H. destruct H as (piece & <- & Hp).
  destruct (@block_lines_chars piece line _ Hl Hc) as [Hin Hlf].
  split; [|exact Hlf].
  now apply (@split_from_chars Main.blank_pattern 0 content piece c).
Qed.

(** The characters of the lines that [extract_pairs_from_file] hands to
    the block extraction. *)
Lemma file_line_chars (content : str) (lines : list str) (line : str) (c : Z) :
  In lines (EC.segment (EC.remove_notes (EC.normalize_newlines content))) ->
  In line lines -> In c line ->
  In c content /\ c <> LF /\ c <> CR.
Proof.
  intros H Hl Hc. destruct (@segment_chars _ _ _ _ H Hl Hc) as [Hin Hlf].
  apply (@prefix_of_chars _ _ _ (remove_notes_prefix _)) in Hin.
  apply normalize_newlines_chars in Hin. destruct Hin as [Hcr [E|Hin]];
    [contradiction|]. repeat split; assumption.
Qed.

(** X4. Every pair that [extract_pairs_from_file] returns has two sides
    of at least three characters, a source side with a Japanese-script
    character and a target side with none, and no newline or carriage
    return in either side; so has every pair of main.py, where a carriage
    return inside a line can remain. *)
Theorem file_pairs_well_formed :
  (forall (content : str) (ps : list (str * str)),
     EC.extract_pairs_from_file content = Ok ps ->
     forall s t, In (s, t) ps ->
       3 <= len s /\ 3 <= len t
       /\ Spec.has_japanese s /\ Spec.no_japanese t
       /\ forall c, In c s \/ In c t -> c <> LF /\ c <> CR)
  /\
  (forall (content : str) (ps : list (str * str)),
     Main.extract_pairs_from_file content = Ok ps ->
     forall s t, In (s, t) ps ->
       3 <= len s /\ 3 <= len t
       /\ Spec.has_japanese s /\ Spec.no_japanese t
       /\ forall c, In c s \/ In c t -> c <> LF).
Proof.
  split.
  - intros content ps Hrun s t Hin.
    destruct (file_pairs_blocks content) as (pss & HF & Hrun').
    rewrite Hrun' in Hrun. inversion Hrun; subst ps.
    apply in_concat in Hin. destruct Hin as (ps' & Hps' & Hin).
    destruct (@Forall2_In_r _ _ _ _ _ _ HF Hps') as (lines & Hlines & Hblock).
    destruct (@block_pair_sides lines _ _ _ Hblock Hin) as (L1 & L2 & Hchars).
    destruct (@block_pair_scripts lines _ _ _ Hblock Hin) as (J1 & J2).
    repeat split; try assumption.
    + destruct (Hchars c H) as [E|[E|(line & Hl & Hc)]];
        [subst c; discriminate | subst c; discriminate|].
      now destruct (@file_line_chars _ _ _ _ Hlines Hl Hc) as (_ & N & _).
    + destruct (Hchars c H) as [E|[E|(line & Hl & Hc)]];
        [subst c; discriminate | subst c; discriminate|].
      now destruct (@file_line_chars _ _ _ _ Hlines Hl Hc) as (_ & _ & N).
  - intros content ps Hrun s t Hin.
    destruct (main_file_pairs_blocks content) as (pss & HF & Hrun').
    rewrite Hrun' in Hrun. inversion Hrun; subst ps.
    apply in_concat in Hin. destruct Hin as (ps' & Hps' & Hin).
    destruct (@Forall2_In_r _ _ _ _ _ _ HF Hps') as (lines & Hlines & Hblock).
    destruct (@main_block_pair_sides lines [] _ _ _ (Hblock []) Hin) as (L1 & L2 & Hchars).
    destruct (@main_block_pair_scripts lines [] _ _ _ (Hblock []) Hin) as (J1 & J2).
    repeat split; try assumption.
    intros c Hc. destruct (Hchars c Hc) as (line & Hl & Hcl).
    now destruct (@main_segment_chars _ _ _ _ Hlines Hl Hcl).
Qed.

Lemma file_pairs_well_formed_witness :
  (3 <= len (u "本文です。") /\ 3 <= len (u "The body text.")
   /\ Spec.has_japanese (u "本文です。") /\ Spec.no_japanese (u "The body text.")
   /\ forall c, In c (u "本文です。") \/ In c (u "The body text.") ->
        c <> LF /\ c <> CR)
  /\ 3 <= len (u "あいう").
Proof.
  split.
  - apply (proj1 file_pairs_well_formed doc_label_colon
             [(u "本文です。", u "The body text.")]);
      [vm_compute; reflexivity | now left].
  - apply (proj2 file_pairs_well_formed doc_empty_line
             [(u "あいう", u "abc"); (u "かきく", u "def")] eq_refl
             (u "あいう") (u "abc")). now left.
Defined.

Lemma no_member_nil (A : Type) (l : list A) : (forall x, ~ In x l) -> l = [].
Proof. destruct l as [|x l]; [reflexivity|]. intro H. destruct (H x). now left. Qed.

Lemma concat_all_nil (A : Type) (ls : list (list A)) :
  (forall l, In l ls -> l = []) -> List.concat ls = [].
Proof.
  induction ls as [|l ls IH]; intro H; [reflexivity|]. cbn [List.concat].
  rewrite (H l (or_introl eq_refl)). apply IH. intros x Hx. apply H. now right.
Qed.

(** A block whose lines hold no Japanese-script character has no Source
    line. *)
Lemma no_source_line (skip : str -> bool) (lines : list str) :
  (forall line, In line lines -> Spec.no_japanese line) ->
  Spec.source_lines skip lines = [].
Proof.
  intro H. apply no_member_nil. intros x Hx.
  destruct (@source_lines_japanese skip lines x Hx) as (c & Hc & Hj).
  destruct (@classified_line_chars skip lines x c (or_introl Hx) Hc)
    as (line & Hl & Hcl).
  exact (H line Hl c Hcl Hj).
Qed.

(** X5. A text without any Japanese-script character yields no pair,
    with either extractor. *)
Theorem no_japanese_no_pairs :
  forall content : str,
    Spec.no_japanese content ->
    EC.extract_pairs_from_file content = Ok []
    /\ Main.extract_pairs_from_file content = Ok [].
Proof.
  intros content Hno. split.
  - destruct (file_pairs_blocks content) as (pss & HF & Hrun).
    rewrite Hrun. f_equal. apply concat_all_nil. intros ps Hps.
    destruct (@Forall2_In_r _ _ _ _ _ _ HF Hps) as (lines & Hlines & Hblock).
    destruct (extract_pairs_from_block_total lines) as (ps' & Hrun' & Hle).
    rewrite Hblock in Hrun'. inversion Hrun'; subst ps'.
    rewrite no_source_line in Hle.
    + destruct ps; [reflexivity | cbn in Hle; lia].
    + intros line Hl c Hc.
      destruct (@file_line_chars _ _ _ _ Hlines Hl Hc) as (Hin & _).
      now apply Hno.
  - destruct (main_file_pairs_blocks content) as (pss & HF & Hrun).
    rewrite Hrun. f_equal. apply concat_all_nil. intros ps Hps.
    destruct (@Forall2_In_r _ _ _ _ _ _ HF Hps) as (lines & Hlines & Hblock).
    specialize (Hblock []). rewrite pairs_of_block_eq in Hblock.
    rewrite no_source_line in Hblock.
    + cbn in Hblock. now inversion Hblock.
    + intros line Hl c Hc.
      destruct (@main_segment_chars _ _ _ _ Hlines Hl Hc) as (Hin & _).
      now apply Hno.
Qed.

Lemma no_japanese_no_pairs_witness :
  EC.extract_pairs_from_file english_only = Ok []
  /\ Main.extract_pairs_from_file english_only = Ok [].
Proof.
  apply no_japanese_no_pairs.
  apply not_japanese_no. vm_compute. reflexivity.
Defined.

(** *** No line is lost by the segmentation *)

Lemma concat_nonempty_blocks (bs : list (list str)) :
  List.concat (Spec.nonempty_blocks bs) = List.concat bs.
Proof.
  induction bs as [|b bs IH]; [reflexivity|].
  unfold Spec.nonempty_blocks in *. cbn [filter List.concat].
  destruct b as [|x b]; cbn [List.length Nat.eqb negb List.concat app];
    now rewrite IH.
Qed.

Lemma stripped_lines_app (xs ys : list str) :
  Spec.stripped_lines (xs ++ ys) =
  Spec.stripped_lines xs ++ Spec.stripped_lines ys.
Proof. unfold Spec.stripped_lines. now rewrite filter_app, map_app. Qed.

Lemma stripped_lines_concat (gs : list (list str)) :
  List.concat (map Spec.stripped_lines gs) =
  Spec.stripped_lines (List.concat gs).
Proof.
  induction gs as [|g gs IH]; [reflexivity|]. cbn [map List.concat].
  now rewrite stripped_lines_app, IH.
Qed.

Lemma stripped_lines_groups (ls : list str) :
  Spec.stripped_lines (List.concat (Spec.group_lines ls)) =
  Spec.stripped_lines ls.
Proof.
  induction ls as [|l ls IH]; [reflexivity|].
  destruct l as [|c l].
  - change (Spec.group_lines ([] :: ls)) with ([] :: Spec.group_lines ls).
    cbn [List.concat app]. rewrite IH. reflexivity.
  - change (Spec.group_lines ((c :: l) :: ls))
      with (match Spec.group_lines ls with
            | g :: gs => ((c :: l) :: g) :: gs
            | [] => [[c :: l]]
            end).
    pose proof (group_lines_nonempty ls) as N.
    destruct (Spec.group_lines ls) as [|g gs]; [contradiction|].
    cbn [List.concat app] in *.
    rewrite (stripped_lines_cons (c :: l) (g ++ List.concat gs)), IH.
    symmetry. apply stripped_lines_cons.
Qed.

Lemma segment_lines (content : str) :
  List.concat (EC.segment content) = Spec.stripped_lines (split LF content).
Proof.
  rewrite <- concat_nonempty_blocks.
  assert (H : Spec.nonempty_blocks (EC.segment content) =
              Spec.blocks_by_empty_lines content).
  { unfold EC.segment, Spec.blocks_by_empty_lines.
    rewrite <- (join_split content) at 1.
    apply (@pieces_groups (List.length (split LF content)));
      [apply le_n | apply split_nonempty | apply split_lines_clean]. }
  rewrite H. unfold Spec.blocks_by_empty_lines.
  rewrite concat_nonempty_blocks, stripped_lines_concat.
  apply stripped_lines_groups.
Qed.

(** X6. Segmentation loses no line and changes no order: the lines of
    the Blocks, Block after Block, are the lines of the text (cut at the
    newlines), stripped, without the blank ones.  On a text without
    carriage return this holds of main.py too. *)
Theorem segment_keeps_lines :
  forall content : str,
    List.concat (EC.segment content) = Spec.stripped_lines (split LF content)
    /\ ((forall c, In c content -> c <> CR) ->
        List.concat (Main.segment content) =
        Spec.stripped_lines (split LF content)).
Proof.
  intro content. split; [apply segment_lines|].
  intro H. rewrite main_segment_eq by exact H. apply segment_lines.
Qed.

Lemma segment_keeps_lines_witness :
  List.concat (Main.segment doc_empty_line) =
  [u "あいう"; u "abc"; u "かきく"; u "def"].
Proof.
  refine (eq_trans (proj2 (segment_keeps_lines doc_empty_line) _) _).
  - apply Forall_forall. vm_compute. repeat constructor; discriminate.
  - vm_compute. reflexivity.
Defined.

(** *** The two noise filters *)

(** If [k'] succeeds wherever [k] does, so does a pattern followed by
    [k'] wherever it succeeds followed by [k]. *)
Lemma star_weaken (p : Z -> bool) (k k' : str -> option str) (s : str) :
  (forall t, k t <> None -> k' t <> None) ->
  star p k s <> None -> star p k' s <> None.
Proof.
  intro H. induction s as [|c s IH]; cbn [star]; [apply H|].
  destruct (p c); [|apply H].
  destruct (star p k s) as [r|] eqn:E.
  - intros _. destruct (star p k' s); [discriminate|].
    exfalso. apply IH; [discriminate | reflexivity].
  - intro Hk. destruct (star p k' s); [discriminate | now apply H].
Qed.

(** A line of digits only, for main.py, is one for extract_corpus.py. *)
Lemma digits_pattern_weaker (s : str) :
  re_match Main.digits_pattern s = true -> re_match EC.digits_pattern s = true.
Proof.
  unfold re_match, match_at, Main.digits_pattern, EC.digits_pattern, cat, plus.
  cbn [fold_right]. peel_cat.
  set (k' := run (Opt (chr 46)) (run (Star is_space) (run Eos (run Eps Some)))).
  set (k := run Eos (run Eps Some)).
  assert (Hk : forall t, k t <> None -> k' t <> None).
  { intros t Ht. subst k k'. destruct t as [|c [|d t]].
    - discriminate.
    - cbn [run] in Ht. destruct (c =? LF)%Z eqn:E; [|contradiction].
      apply Z.eqb_eq in E. rewrite E. discriminate.
    - now cbn [run] in Ht. }
  destruct s as [|c s]; [discriminate|].
  change (run (Cls is_decimal) (run (Star is_decimal) k) (c :: s))
    with (if is_decimal c then star is_decimal k s else None).
  change (run (Cls is_decimal) (run (Star is_decimal) k') (c :: s))
    with (if is_decimal c then star is_decimal k' s else None).
  destruct (is_decimal c); [|discriminate].
  intro H.
  assert (N : star is_decimal k' s <> None).
  { apply (star_weaken is_decimal k k' s Hk).
    destruct (star is_decimal k s); [discriminate | discriminate H]. }
  destruct (star is_decimal k' s); [reflexivity | now destruct N].
Qed.

(** X7. The filter of extract_corpus.py discards every line that the
    filter of main.py discards; so a line kept by extract_corpus.py is
    kept by main.py. *)
Theorem main_filter_is_weaker :
  forall line : str,
    Main.should_skip_line line = true -> EC.should_skip_line line = true.
Proof.
  intro line. unfold Main.should_skip_line, EC.should_skip_line. cbv zeta.
  change (strip (strip line)) with (strip_by is_space (strip_by is_space line)).
  rewrite strip_by_idem. fold (strip line).
  destruct (len (strip line) =? 0)%nat; [reflexivity|].
  destruct (re_match EC.rule_pattern (strip line)); [reflexivity|].
  destruct (startswith (strip line) (u "http://") ||
            startswith (strip line) (u "https://") ||
            startswith (strip line) (u "<http")); [reflexivity|].
  destruct (re_match EC.bang_pattern (strip line)); [reflexivity|].
  destruct (startswith (strip line) (u "（訳注：")); [reflexivity|].
  destruct (startswith (strip line) (u "(訳注:")); [reflexivity|].
  cbn [orb].
  destruct (startswith (strip line) (u "訳注：")); [reflexivity|].
  destruct (re_match EC.note_label_pattern (strip line)); [reflexivity|].
  destruct (re_match EC.note_number_pattern (strip line)); [reflexivity|].
  change Main.note_letter_pattern with EC.note_letter_pattern.
  destruct (re_match EC.note_letter_pattern (strip line)); [reflexivity|].
  destruct (re_match Main.digits_pattern (strip line)) eqn:D.
  { now rewrite (digits_pattern_weaker _ D). }
  destruct (re_match EC.digits_pattern (strip line)); [reflexivity|].
  destruct (contains (u "Version") (strip line) &&
            (contains (u "Page") (strip line) ||
             contains (u "Progress") (strip line))); [reflexivity|].
  discriminate.
Qed.

Lemma main_filter_is_weaker_witness :
  EC.should_skip_line (u "  42 ") = true.
Proof. apply main_filter_is_weaker. vm_compute. reflexivity. Defined.

(** *** Reading TSV lines *)

Lemma rstrip_by_chars (p : Z -> bool) (s : str) (c : Z) :
  In c (rstrip_by p s) -> In c s.
Proof.
  unfold rstrip_by. intro H. apply in_rev in H.
  apply lstrip_by_chars in H. now apply in_rev in H.
Qed.

Lemma lstrip_by_keeps (p : Z -> bool) (s : str) (c : Z) :
  In c s -> p c = false -> In c (lstrip_by p s).
Proof.
  intros H Hc. induction s as [|x s IH]; [destruct H|]. cbn [lstrip_by].
  destruct (p x) eqn:E; [|exact H].
  destruct H as [->|H]; [congruence | now apply IH].
Qed.

Lemma rstrip_by_keeps (p : Z -> bool) (s : str) (c : Z) :
  In c s -> p c = false -> In c (rstrip_by p s).
Proof.
  intros H Hc. unfold rstrip_by. apply -> in_rev.
  apply lstrip_by_keeps; [now apply -> in_rev | exact Hc].
Qed.

Lemma split_max_nonempty (sep : Z) (n : nat) (s : str) :
  split_max sep n s <> [].
Proof.
  revert n. induction s as [|c s IH]; intro n; cbn [split_max];
    [discriminate|].
  destruct n as [|n]; [discriminate|].
  destruct (c =? sep)%Z; [discriminate|].
  specialize (IH (S n)). destruct (split_max sep (S n) s); [contradiction|].
  discriminate.
Qed.

(** A separator in the text and a split allowed: at least two fields. *)
Lemma split_max_two (sep : Z) (n : nat) (s : str) :
  In sep s -> 2 <= List.length (split_max sep (S n) s).
Proof.
  induction s as [|c s IH]; [intros []|]. cbn [split_max].
  destruct (Z.eqb_spec c sep) as [E|E].
  - intros _. pose proof (@split_max_nonempty sep n s) as N.
    destruct (split_max sep n s); [contradiction | cbn; lia].
  - intros [H|H]; [contradiction|]. specialize (IH H).
    destruct (split_max sep (S n) s); cbn in *; lia.
Qed.


(** *** Writing TSV lines *)



(** *** Newline normalisation and footnote removal *)

Lemma replace_from_absent (old new : str) (c0 : Z) (s : str) :
  (forall c, In c s -> c <> c0) ->
  replace_from (c0 :: old) new 0 s = s.
Proof.
  intro H. induction s as [|c s IH]; [reflexivity|].
  cbn [replace_from startswith].
  destruct (Z.eqb_spec c c0) as [E|_]; [now destruct (H c (or_introl eq_refl))|].
  cbn [andb]. rewrite IH; [reflexivity|]. intros x Hx. apply H. now right.
Qed.

(** X10. After [normalize_newlines] no carriage return is left, and a
    text without carriage return is left as it is. *)
Theorem normalize_newlines_no_cr :
  forall content : str,
    (forall c, In c (EC.normalize_newlines content) -> c <> CR)
    /\ ((forall c, In c content -> c <> CR) ->
        EC.normalize_newlines content = content).
Proof.
  intro content. split.
  - intros c Hc. now apply normalize_newlines_chars in Hc.
  - intro H. unfold EC.normalize_newlines, replace.
    rewrite (@replace_from_absent [LF] [LF] CR content H).
    now apply replace_from_absent.
Qed.

Lemma normalize_newlines_no_cr_witness :
  EC.normalize_newlines doc_empty_line = doc_empty_line.
Proof.
  apply (proj2 (normalize_newlines_no_cr doc_empty_line)).
  apply Forall_forall. vm_compute. repeat constructor; discriminate.
Defined.

Lemma run_lit_only (s : str) (k : str -> option str) (t : str) :
  run (lit s) k t <> None -> exists rest, t = s ++ rest.
Proof.
  unfold lit, cat. revert t. induction s as [|c s IH]; intro t.
  - intros _. now exists t.
  - cbn [map fold_right].
    change (run (Cat ?a ?b) k) with (run a (run b k)).
    unfold chr at 1. cbn [run]. destruct t as [|x t]; [intro H; now destruct H|].
    destruct (Z.eqb_spec c x) as [<-|_]; [|intro H; now destruct H].
    intro H. destruct (IH t H) as [rest ->]. now exists rest.
Qed.

Lemma notes_patterns_need_empty_line (t : str) :
  (match_at EC.notes_pattern1 t <> None \/ match_at EC.notes_pattern2 t <> None) ->
  exists rest, t = [LF; LF] ++ rest.
Proof.
  unfold match_at, EC.notes_pattern1, EC.notes_pattern2, cat.
  cbn [fold_right]. peel_cat. intros [H|H]; now apply run_lit_only in H.
Qed.

Lemma re_sub_no_match (r : regex) (repl s : str) :
  (forall pre t, s = pre ++ t -> match_at r t = None) ->
  re_sub r repl s = s.
Proof.
  unfold re_sub. induction s as [|c s IH]; intro H; [reflexivity|].
  cbn [sub_from]. unfold match_len. rewrite (H [] (c :: s) eq_refl).
  rewrite IH; [reflexivity|].
  intros pre t E. apply (H (c :: pre)). now rewrite E.
Qed.

(** X11. [remove_notes] only cuts the end of the text off: its result is
    a prefix of the text; and a text without an empty line (without two
    consecutive newlines) is left as it is. *)
Theorem remove_notes_only_truncates :
  forall content : str,
    Spec.prefix_of (EC.remove_notes content) content
    /\ ((forall pre post, content <> pre ++ [LF; LF] ++ post) ->
        EC.remove_notes content = content).
Proof.
  intro content. split; [apply remove_notes_prefix|].
  intro H. unfold EC.remove_notes.
  assert (H1 : re_sub EC.notes_pattern1 [] content = content).
  { apply re_sub_no_match. intros pre t E.
    destruct (match_at EC.notes_pattern1 t) eqn:M; [|reflexivity].
    destruct (@notes_patterns_need_empty_line t) as [rest ->].
    - left. rewrite M. discriminate.
    - now destruct (H pre rest). }
  rewrite H1. apply re_sub_no_match. intros pre t E.
  destruct (match_at EC.notes_pattern2 t) eqn:M; [|reflexivity].
  destruct (@notes_patterns_need_empty_line t) as [rest ->].
  - right. rewrite M. discriminate.
  - now destruct (H pre rest).
Qed.

Lemma no_infix_check (x : str) (s : str) :
  existsb (fun n => startswith (skipn n s) x) (seq 0 (S (List.length s))) = false ->
  forall pre post, s <> pre ++ x ++ post.
Proof.
  intros H pre post E.
  assert (T : existsb (fun n => startswith (skipn n s) x)
                (seq 0 (S (List.length s))) = true); [|congruence].
  apply existsb_exists. exists (List.length pre). split.
  - apply in_seq. rewrite E, length_app. lia.
  - rewrite E, skipn_app, skipn_all, Nat.sub_diag. cbn [skipn app].
    clear. induction x as [|c x IH]; [reflexivity|].
    cbn [app startswith]. now rewrite Z.eqb_refl.
Qed.

Lemma remove_notes_only_truncates_witness :
  EC.remove_notes (u "注：" ++ [LF] ++ u "not after an empty line") =
  u "注：" ++ [LF] ++ u "not after an empty line".
Proof.
  apply (proj2 (remove_notes_only_truncates _)).
  apply no_infix_check. vm_compute. reflexivity.
Defined.

(** *** Noise lines *)

(** X12. A line that the noise filter discards has no effect on the pairs
    of its block: with the line or without it, [extract_pairs_from_block]
    returns the same, and so does the block loop of main.py. *)
Theorem noise_line_ignored :
  (forall (before after : list str) (noise : str),
     EC.should_skip_line noise = true ->
     EC.extract_pairs_from_block (before ++ noise :: after) =
     EC.extract_pairs_from_block (before ++ after))
  /\
  (forall (before after : list str) (noise : str) (pairs : list (str * str)),
     Main.should_skip_line noise = true ->
     Main.pairs_of_block (before ++ noise :: after) pairs =
     Main.pairs_of_block (before ++ after) pairs).
Proof.
  split.
  - intros before after noise H. unfold EC.extract_pairs_from_block.
    rewrite !filter_app. cbn [filter]. rewrite H. reflexivity.
  - intros before after noise pairs H. unfold Main.pairs_of_block.
    rewrite !filter_app. cbn [filter]. rewrite H. reflexivity.
Qed.

Lemma noise_line_ignored_witness :
  EC.extract_pairs_from_block
    ([u "見て。"] ++ u "http://example.org/" :: [u "Look;"; u "over there."]) =
  Ok [(u "見て。", u "Look; over there.")].
Proof.
  rewrite (proj1 noise_line_ignored); [|vm_compute; reflexivity].
  vm_compute. reflexivity.
Defined.

(* ================================================================== *)
(** ** Lines discarded before the classification *)
(* ================================================================== *)

Lemma cleaned_lines_app (skip : str -> bool) (xs ys : list str) :
  Spec.cleaned_lines skip (xs ++ ys) =
  Spec.cleaned_lines skip xs ++ Spec.cleaned_lines skip ys.
Proof.
  unfold Spec.cleaned_lines. now rewrite filter_app, map_app, filter_app.
Qed.

(** What one line gives to the classification. *)
Lemma cleaned_lines_one (line : str) :
  Spec.cleaned_lines EC.should_skip_line [line] =
  if EC.should_skip_line line then []
  else if (len (EC.clean_text line) =? 0)%nat then []
  else [EC.clean_text line].
Proof.
  unfold Spec.cleaned_lines. cbn [filter].
  destruct (EC.should_skip_line line); [reflexivity|]. cbn [negb map filter].
  now destruct (len (EC.clean_text line) =? 0)%nat.
Qed.

Lemma classify_eq (lines : list str) :
  Spec.classify lines =
  (filter EC.is_japanese (Spec.cleaned_lines EC.should_skip_line lines),
   filter (fun c => negb (EC.is_japanese c))
     (Spec.cleaned_lines EC.should_skip_line lines)).
Proof. apply separate_lines. Qed.

Lemma classify_app (xs ys : list str) :
  Spec.classify (xs ++ ys) =
  (fst (Spec.classify xs) ++ fst (Spec.classify ys),
   snd (Spec.classify xs) ++ snd (Spec.classify ys)).
Proof.
  rewrite !classify_eq, cleaned_lines_app, !filter_app. reflexivity.
Qed.

(** The pairs of a block are computed from the two lists alone. *)
Lemma block_pairs_by_classification (lines lines' : list str) :
  Spec.classify lines = Spec.classify lines' ->
  EC.extract_pairs_from_block lines = EC.extract_pairs_from_block lines'.
Proof.
  unfold Spec.classify. rewrite !separate_lines. intro H.
  injection H as Hja Hen.
  rewrite !extract_pairs_from_block_eq. cbv zeta. rewrite Hja, Hen.
  reflexivity.
Qed.

(** C7, as the code has it.  A line that survives the checks 1 to 7 is
    Noise exactly when the line, trimmed of its surrounding whitespace
    (the character-reference markers still in it), has at most 2
    characters.  It is discarded before the language classification in
    two cases: when it is Noise, by the last noise check, and when its
    cleaned text is empty, by the test at the head of the classification
    loop; the two lists that the loop builds, and the pairs of the block,
    are then the same with the line and without it.  In every other case,
    also when the cleaned text has only 1 or 2 characters, the cleaned
    text is classified: it is added, at the place of the line, to the
    Source lines if it has a Japanese-script character and to the Target
    lines if not. *)
Theorem short_line_discarded :
  forall line : str,
    Spec.survives_checks_1_to_7 line = true ->
    (EC.should_skip_line line = true <-> len (strip line) <= 2)
    /\ (len (strip line) <= 2 \/ len (EC.clean_text line) = 0 ->
        forall before after : list str,
          Spec.classify (before ++ line :: after) =
          Spec.classify (before ++ after)
          /\ EC.extract_pairs_from_block (before ++ line :: after) =
             EC.extract_pairs_from_block (before ++ after))
    /\ (3 <= len (strip line) /\ 1 <= len (EC.clean_text line) ->
        forall before after : list str,
          Spec.classify (before ++ line :: after) =
          if EC.is_japanese (EC.clean_text line)
          then (fst (Spec.classify before)
                ++ EC.clean_text line :: fst (Spec.classify after),
                snd (Spec.classify before) ++ snd (Spec.classify after))
          else (fst (Spec.classify before) ++ fst (Spec.classify after),
                snd (Spec.classify before)
                ++ EC.clean_text line :: snd (Spec.classify after))).
Proof.
  intros line Hsurv.
  assert (Hskip : EC.should_skip_line line = (len (strip line) <=? 2)%nat)
    by (rewrite should_skip_line_eq, Hsurv; reflexivity).
  assert (Hone : Spec.classify [line] =
                 if (len (strip line) <=? 2)%nat then ([], [])
                 else if (len (EC.clean_text line) =? 0)%nat then ([], [])
                 else if EC.is_japanese (EC.clean_text line)
                      then ([EC.clean_text line], [])
                      else ([], [EC.clean_text line])).
  { rewrite classify_eq, cleaned_lines_one, Hskip.
    destruct (len (strip line) <=? 2)%nat; [reflexivity|].
    destruct (len (EC.clean_text line) =? 0)%nat; [reflexivity|].
    cbn [filter]. now destruct (EC.is_japanese (EC.clean_text line)). }
  split; [rewrite Hskip; apply Nat.leb_le|]. split.
  - intros Hshort before after.
    assert (E : Spec.classify (before ++ line :: after) =
                Spec.classify (before ++ after)).
    { change (line :: after) with ([line] ++ after).
      rewrite !classify_app, Hone.
      destruct (Nat.leb_spec (len (strip line)) 2) as [_|Hlong]; [reflexivity|].
      destruct Hshort as [Hshort|Hempty]; [lia|]. now rewrite Hempty. }
    split; [exact E | now apply block_pairs_by_classification].
  - intros [Hlong Hfull] before after.
    change (line :: after) with ([line] ++ after).
    rewrite !classify_app, Hone.
    destruct (Nat.leb_spec (len (strip line)) 2) as [Hshort|_]; [lia|].
    destruct (Nat.eqb_spec (len (EC.clean_text line)) 0) as [E|_]; [lia|].
    now destruct (EC.is_japanese (EC.clean_text line)).
Qed.

Lemma short_line_discarded_witness :
  (EC.should_skip_line (u " ab ") = true <-> len (strip (u " ab ")) <= 2)
  /\ (Spec.classify ([u "見て。"] ++ u "&#1234" :: [u "Look; over there."]) =
      Spec.classify ([u "見て。"] ++ [u "Look; over there."])
      /\ EC.extract_pairs_from_block
           ([u "見て。"] ++ u "&#1234" :: [u "Look; over there."]) =
         EC.extract_pairs_from_block ([u "見て。"] ++ [u "Look; over there."]))
  /\ Spec.classify ([u "あいうえ"] ++ u "&#1234ab" :: [u "hello"]) =
     ([u "あいうえ"], [u "ab"; u "hello"]).
Proof.
  split; [|split].
  - apply (proj1 (short_line_discarded (u " ab ") eq_refl)).
  - apply (proj1 (proj2 (short_line_discarded (u "&#1234") eq_refl))).
    right. vm_compute. reflexivity.
  - rewrite (proj2 (proj2 (short_line_discarded (u "&#1234ab") eq_refl)));
      [|split; vm_compute; lia].
    vm_compute. reflexivity.
Defined.

(* ================================================================== *)
(** ** Reading back the TSV file *)
(* ================================================================== *)











(** A side with a carriage return: the line written for the pair is read
    back as two lines. *)
Lemma carriage_return_splits_line :
  map Reverse.line_parts
    (Reverse.read_lines (EC.write_tsv [(u "あ" ++ [CR] ++ u "いう", u "abc")])) =
  [[u "あ"]; [u "いう"; u "abc"]].
Proof. vm_compute. reflexivity. Qed.

(** *** The fields of a line *)

Lemma rstrip_newline (s : str) :
  rstrip_by (Z.eqb LF) (s ++ [LF]) = rstrip_by (Z.eqb LF) s.
Proof.
  unfold rstrip_by. rewrite rev_app_distr. cbn [rev app lstrip_by].
  now rewrite Z.eqb_refl.
Qed.

Lemma rstrip_newlines (core : str) (n : nat) :
  (forall s', core <> s' ++ [LF]) ->
  rstrip_by (Z.eqb LF) (core ++ repeat LF n) = core.
Proof.
  intro H. induction n as [|n IH].
  - cbn [repeat]. rewrite app_nil_r. unfold rstrip_by.
    destruct (rev core) as [|c t] eqn:E.
    + cbn [lstrip_by rev]. apply (f_equal (@rev Z)) in E.
      now rewrite rev_involutive in E.
    + cbn [lstrip_by]. destruct (Z.eqb_spec LF c) as [<-|_].
      * exfalso. apply (H (rev t)). apply (f_equal (@rev Z)) in E.
        rewrite rev_involutive in E. exact E.
      * rewrite <- E. apply rev_involutive.
  - replace (core ++ repeat LF (S n)) with ((core ++ repeat LF n) ++ [LF]).
    + now rewrite rstrip_newline.
    + rewrite <- app_assoc. f_equal. symmetry. apply repeat_cons.
Qed.

Lemma ends_with_tab_field (a b s' : str) :
  (forall s', b <> s' ++ [LF]) -> a ++ [TAB] ++ b <> s' ++ [LF].
Proof.
  intros Hb E. apply (f_equal (@rev Z)) in E.
  rewrite !rev_app_distr in E. cbn [rev app] in E.
  destruct (rev b) as [|x t] eqn:R; cbn [app] in E.
  - discriminate.
  - injection E as -> _. apply (Hb (rev t)).
    apply (f_equal (@rev Z)) in R. now rewrite rev_involutive in R.
Qed.

(** X8. [convert_line] never fails.  A line without tab gives no record.
    A line with a tab gives a record with the two members "en" and "ja":
    "en" is the text before the first tab, "ja" the text from there to
    the second tab or, if there is none, to the end of the line without
    its trailing newlines; what comes after a second tab is dropped. *)
Theorem convert_line_cases :
  forall line : str,
    (~ In TAB line -> Reverse.convert_line line = Ok None)
    /\ (In TAB line ->
        exists en ja,
          Reverse.convert_line line =
          Ok (Some [("en"%string, en); ("ja"%string, ja)]))
    /\ (forall (a b : str) (n : nat),
          (forall x, In x a -> x <> TAB) -> (forall x, In x b -> x <> TAB) ->
          (forall s', b <> s' ++ [LF]) ->
          line = a ++ [TAB] ++ b ++ repeat LF n ->
          Reverse.convert_line line =
          Ok (Some [("en"%string, a); ("ja"%string, b)]))
    /\ (forall (a b c : str) (n : nat),
          (forall x, In x a -> x <> TAB) -> (forall x, In x b -> x <> TAB) ->
          (forall s', c <> s' ++ [LF]) ->
          line = a ++ [TAB] ++ b ++ [TAB] ++ c ++ repeat LF n ->
          Reverse.convert_line line =
          Ok (Some [("en"%string, a); ("ja"%string, b)])).
Proof.
  intro line. split; [|split; [|split]].
  - intro H. unfold Reverse.convert_line, Reverse.line_parts.
    rewrite split_max_no_sep; [reflexivity|].
    intros c Hc E. subst c. apply H. now apply rstrip_by_chars in Hc.
  - intro H. unfold Reverse.convert_line, Reverse.line_parts.
    apply (@rstrip_by_keeps (Z.eqb LF)) in H; [|reflexivity].
    pose proof (@split_max_two TAB 1 _ H) as L.
    destruct (split_max TAB 2 (rstrip_by (Z.eqb LF) line)) as [|en [|ja rest]];
      cbn [List.length] in L; try lia.
    exists en, ja. reflexivity.
  - intros a b n Ha Hb Hend ->.
    unfold Reverse.convert_line, Reverse.line_parts.
    replace (a ++ [TAB] ++ b ++ repeat LF n)
      with ((a ++ [TAB] ++ b) ++ repeat LF n)
      by (rewrite <- !app_assoc; reflexivity).
    rewrite rstrip_newlines by (intro s'; now apply ends_with_tab_field).
    cbn [app]. rewrite split_max_first by exact Ha.
    rewrite split_max_no_sep by exact Hb. reflexivity.
  - intros a b c n Ha Hb Hend ->.
    unfold Reverse.convert_line, Reverse.line_parts.
    replace (a ++ [TAB] ++ b ++ [TAB] ++ c ++ repeat LF n)
      with (((a ++ [TAB] ++ b) ++ [TAB] ++ c) ++ repeat LF n)
      by (rewrite <- !app_assoc; reflexivity).
    rewrite rstrip_newlines by (intro s'; now apply ends_with_tab_field).
    rewrite <- !app_assoc. cbn [app].
    rewrite split_max_first by exact Ha.
    rewrite split_max_first by exact Hb.
    destruct c; reflexivity.
Qed.

Lemma not_ending_check (s : str) :
  match rev s with
  | [] => true
  | c :: _ => negb (c =? LF)%Z
  end = true ->
  forall s', s <> s' ++ [LF].
Proof.
  intros H s' E. subst s. rewrite rev_app_distr in H. cbn in H. discriminate.
Qed.

Lemma convert_line_cases_witness :
  Reverse.convert_line (u "no tab here") = Ok None
  /\ (exists en ja,
        Reverse.convert_line ([1; TAB; 2; TAB; 3; LF])%Z =
        Ok (Some [("en"%string, en); ("ja"%string, ja)]))
  /\ Reverse.convert_line ([1] ++ [TAB] ++ [2] ++ repeat LF 2)%Z =
     Ok (Some [("en"%string, [1%Z]); ("ja"%string, [2%Z])])
  /\ Reverse.convert_line ([1] ++ [TAB] ++ [2] ++ [TAB] ++ [3] ++ repeat LF 1)%Z =
     Ok (Some [("en"%string, [1%Z]); ("ja"%string, [2%Z])]).
Proof.
  split; [|split; [|split]].
  - apply (proj1 (convert_line_cases (u "no tab here"))).
    intro H. vm_compute in H.
    repeat (destruct H as [H|H]; [discriminate|]). exact H.
  - apply (proj1 (proj2 (convert_line_cases [1; TAB; 2; TAB; 3; LF]%Z))).
    right. now left.
  - apply (proj1 (proj2 (proj2 (convert_line_cases _))) [1%Z] [2%Z] 2);
      try reflexivity; try (intros x [<-|[]]; discriminate).
    apply not_ending_check. reflexivity.
  - apply (proj2 (proj2 (proj2 (convert_line_cases _))) [1%Z] [2%Z] [3%Z] 1);
      try reflexivity; try (intros x [<-|[]]; discriminate).
    apply not_ending_check. reflexivity.
Defined.
